(** * The 2D-to-3D image pipeline and the before/after slider

    A shallow embedding of [image_processing.py] and [image_tools.py].
    Both files are thin compositions of Pillow and NumPy calls, so the
    development starts with a model of the library operations they use
    (module [PIL] and module [np]) and then transcribes the repository's
    functions on top of it. *)

From Stdlib Require Import ZArith String DecimalString List Bool Lia QArith.
Import ListNotations.
Open Scope Z_scope.

(** ** Python exceptions *)

(** The failures reachable from the two source files are raised inside
    Pillow: [ValueError], and [DecompressionBombError] (a subclass of
    [Exception], not of [ValueError]).  The class name is kept as data so
    that a statement can talk about which exception a call ends in. *)
Record PyExc := mkExc { exc_type : string; exc_msg : string }.

Definition ValueError (msg : string) : PyExc := mkExc "ValueError" msg.

Definition DecompressionBombError (msg : string) : PyExc :=
  mkExc "DecompressionBombError" msg.

(** [str(n)] of an integer. *)
Definition str (n : Z) : string := NilZero.string_of_int (Z.to_int n).

Inductive result (A : Type) : Type :=
| Ok (v : A)
| Raise (e : PyExc).
Arguments Ok {A} v.
Arguments Raise {A} e.

Definition bind {A B} (c : result A) (k : A -> result B) : result B :=
  match c with
  | Ok v => k v
  | Raise e => Raise e
  end.

Notation "x <- c ;; k" := (bind c (fun x => k))
  (at level 61, c at next level, right associativity).

(** ** List helpers *)

Fixpoint zipWith {A B C} (f : A -> B -> C) (l : list A) (m : list B) : list C :=
  match l, m with
  | a :: l', b :: m' => f a b :: zipWith f l' m'
  | _, _ => []
  end.

(** [tabulate w h f] is the raster of [h] rows and [w] columns whose cell
    in column [x] of row [y] is [f x y]: the shape of every C loop nest
    that fills a freshly allocated output image. *)
Definition tabulate {A} (w h : nat) (f : nat -> nat -> A) : list (list A) :=
  map (fun y => map (fun x => f x y) (seq 0 w)) (seq 0 h).

(** ** Pillow *)

Module PIL.

(** The 8-bit modes the pipeline meets: greyscale, greyscale with alpha,
    and colour without and with alpha. *)
Inductive Mode := L | LA | RGB | RGBA.

Definition Mode_eqb (m n : Mode) : bool :=
  match m, n with
  | L, L | LA, LA | RGB, RGB | RGBA, RGBA => true
  | _, _ => false
  end.

Definition bands (m : Mode) : nat :=
  match m with L => 1 | LA => 2 | RGB => 3 | RGBA => 4 end%nat.

(** A pixel is the tuple [getpixel] returns. *)
Inductive pixel :=
| PL (l : Z)
| PLA (l a : Z)
| PRGB (r g b : Z)
| PRGBA (r g b a : Z).

(** [size] is [(width, height)]; [data] is the raster, top row first. *)
Record Image := mkImage { mode : Mode; size : nat * nat; data : list (list pixel) }.

Definition width (im : Image) : nat := fst (size im).
Definition height (im : Image) : nat := snd (size im).

(** [Convert.c]: ITU-R 601-2 luma with 16-bit fixed point weights. *)
Definition L24 (r g b : Z) : Z := r * 19595 + g * 38470 + b * 7471 + 32768.
Definition luma (r g b : Z) : Z := Z.shiftr (L24 r g b) 16.

(** [Image.convert] between the four modes, one pixel at a time
    ([l2la], [l2rgb], [la2l], [la2rgb], [rgb2l], [rgb2la], [rgb2rgba],
    [rgba2l], [rgba2la], [rgba2rgb] of [Convert.c]). *)
Definition convert_pixel (m : Mode) (p : pixel) : pixel :=
  match m, p with
  | L, PL l => PL l
  | L, PLA l _ => PL l
  | L, PRGB r g b => PL (luma r g b)
  | L, PRGBA r g b _ => PL (luma r g b)
  | LA, PL l => PLA l 255
  | LA, PLA l a => PLA l a
  | LA, PRGB r g b => PLA (luma r g b) 255
  | LA, PRGBA r g b a => PLA (luma r g b) a
  | RGB, PL l => PRGB l l l
  | RGB, PLA l _ => PRGB l l l
  | RGB, PRGB r g b => PRGB r g b
  | RGB, PRGBA r g b _ => PRGB r g b
  | RGBA, PL l => PRGBA l l l 255
  | RGBA, PLA l a => PRGBA l l l a
  | RGBA, PRGB r g b => PRGBA r g b 255
  | RGBA, PRGBA r g b a => PRGBA r g b a
  end.

(** [Image.convert(mode)]: a copy when the mode is already the requested
    one, a per-pixel conversion otherwise. *)
Definition convert (im : Image) (m : Mode) : Image :=
  if Mode_eqb m (mode im) then im
  else mkImage m (size im) (map (map (convert_pixel m)) (data im)).

(** The black (all bytes zero) pixel of a mode. *)
Definition zero_pixel (m : Mode) : pixel :=
  match m with
  | L => PL 0
  | LA => PLA 0 0
  | RGB => PRGB 0 0 0
  | RGBA => PRGBA 0 0 0 0
  end.

(** Band [c] of a pixel, and a pixel rebuilt from its bands. *)
Definition chan (c : nat) (p : pixel) : Z :=
  match p, c with
  | PL l, O => l
  | PLA l _, O => l
  | PLA _ a, S O => a
  | PRGB r _ _, O => r
  | PRGB _ g _, S O => g
  | PRGB _ _ b, S (S O) => b
  | PRGBA r _ _ _, O => r
  | PRGBA _ g _ _, S O => g
  | PRGBA _ _ b _, S (S O) => b
  | PRGBA _ _ _ a, S (S (S O)) => a
  | _, _ => 0
  end.

Definition build (m : Mode) (f : nat -> Z) : pixel :=
  match m with
  | L => PL (f 0%nat)
  | LA => PLA (f 0%nat) (f 1%nat)
  | RGB => PRGB (f 0%nat) (f 1%nat) (f 2%nat)
  | RGBA => PRGBA (f 0%nat) (f 1%nat) (f 2%nat) (f 3%nat)
  end.

(** Two pixels combined band by band (the C loops run over the bytes of
    a line); pixels of different layouts never meet, the first is kept. *)
Definition zip_pixel (f : Z -> Z -> Z) (p q : pixel) : pixel :=
  match p, q with
  | PL l, PL l' => PL (f l l')
  | PLA l a, PLA l' a' => PLA (f l l') (f a a')
  | PRGB r g b, PRGB r' g' b' => PRGB (f r r') (f g g') (f b b')
  | PRGBA r g b a, PRGBA r' g' b' a' => PRGBA (f r r') (f g g') (f b b') (f a a')
  | _, _ => p
  end.

(** The alpha band of a pixel, when its layout has one. *)
Definition alpha_of (p : pixel) : option Z :=
  match p with
  | PLA _ a => Some a
  | PRGBA _ _ _ a => Some a
  | _ => None
  end.

(** [getpixel((x, y))], with the zero pixel outside the raster. *)
Definition px_at (im : Image) (x y : nat) : pixel :=
  nth x (nth y (data im) []) (zero_pixel (mode im)).

(** [CLIP8] of the C sources. *)
Definition CLIP8 (v : Z) : Z := if v <? 0 then 0 else if 255 <? v then 255 else v.

(** [getink]: the pixel an integer colour stands for in each mode. *)
Definition ink (m : Mode) (color : Z) : pixel :=
  match m with
  | L => PL (CLIP8 color)
  | LA => PLA (CLIP8 color) 255
  | RGB => PRGB (Z.land color 255) (Z.land (Z.shiftr color 8) 255)
             (Z.land (Z.shiftr color 16) 255)
  | RGBA => PRGBA (Z.land color 255) (Z.land (Z.shiftr color 8) 255)
              (Z.land (Z.shiftr color 16) 255) (Z.land (Z.shiftr color 24) 255)
  end.

(** [Image.new(mode, size, color)]; [color] defaults to [0]. *)
Definition new (m : Mode) (sz : nat * nat) (color : Z) : Image :=
  mkImage m sz (tabulate (fst sz) (snd sz) (fun _ _ => ink m color)).

(** *** Blending *)

(** [Image.blend(im1, im2, alpha)], [Blend.c].  [alpha] is a C float; the
    two factors the sources use, [0.5] and [1.5], and every byte
    difference are exactly representable, so the float expression
    [in1 + alpha * (in2 - in1)] is the rational number
    [blend_num / Qden alpha].  The cast to [UINT8] truncates toward zero,
    which is [Z.quot]. *)
Definition blend_num (alpha : Q) (in1 in2 : Z) : Z :=
  in1 * Zpos (Qden alpha) + Qnum alpha * (in2 - in1).

Definition blend_interpolate (alpha : Q) (in1 in2 : Z) : Z :=
  Z.quot (blend_num alpha in1 in2) (Zpos (Qden alpha)) mod 256.

Definition blend_extrapolate (alpha : Q) (in1 in2 : Z) : Z :=
  let temp := blend_num alpha in1 in2 in
  if temp <=? 0 then 0
  else if 255 * Zpos (Qden alpha) <=? temp then 255
  else Z.quot temp (Zpos (Qden alpha)).

Definition size_eqb (a b : nat * nat) : bool :=
  Nat.eqb (fst a) (fst b) && Nat.eqb (snd a) (snd b).

Definition blend (im1 im2 : Image) (alpha : Q) : result Image :=
  if negb (Nat.eqb (bands (mode im1)) (bands (mode im2)) && size_eqb (size im1) (size im2))
  then Raise (ValueError "images do not match")
  else if Qeq_bool alpha 0 then Ok im1
  else if Qeq_bool alpha 1 then Ok im2
  else
    let f := if Qle_bool 0 alpha && Qle_bool alpha 1
             then blend_interpolate alpha else blend_extrapolate alpha in
    Ok (mkImage (mode im1) (size im1) (zipWith (zipWith (zip_pixel f)) (data im1) (data im2))).

(** *** 3x3 convolution *)

(** A built-in kernel filter: [filterargs = (3, 3), scale, offset, kernel].
    Both kernels the source uses have scale 1 and integer entries. *)
Record Kernel3 := mkKernel { offset : Z; kernel : list Z }.

Definition EMBOSS : Kernel3 := mkKernel 128 [-1; 0; 0; 0; 1; 0; 0; 0; 0].
Definition FIND_EDGES : Kernel3 := mkKernel 0 [-1; -1; -1; -1; 8; -1; -1; -1; -1].

(** [clip8] of [Filter.c] applied to [ss = n + 0.5]; the argument is [2 * ss]. *)
Definition clip8_half (ss2 : Z) : Z :=
  if ss2 <=? 0 then 0 else if 510 <=? ss2 then 255 else Z.quot ss2 2.

Definition knth (k : Kernel3) (i : nat) : Z := nth i (kernel k) 0.

(** [KERNEL1x3(in, x, &kernel[i], d)] on band [c] of row [y]. *)
Definition KERNEL1x3 (im : Image) (c : nat) (k : Kernel3) (i : nat) (x y : nat) : Z :=
  chan c (px_at im (x - 1) y) * knth k i
  + chan c (px_at im x y) * knth k (i + 1)
  + chan c (px_at im (x + 1) y) * knth k (i + 2).

(** [ImagingFilter3x3]: the first and last row and the first and last
    pixel of every row are copied from the input; every other pixel gets,
    in every band, [clip8 (offset + 0.5 + sum)], where the first kernel row
    meets the image row below. *)
Definition filter3x3_band (im : Image) (k : Kernel3) (x y c : nat) : Z :=
  clip8_half (2 * (offset k
                   + KERNEL1x3 im c k 0 x (y + 1)
                   + KERNEL1x3 im c k 3 x y
                   + KERNEL1x3 im c k 6 x (y - 1)) + 1).

Definition interior (n i : nat) : bool := Nat.ltb 0 i && Nat.ltb (i + 1) n.

Definition filter3x3_pixel (im : Image) (k : Kernel3) (x y : nat) : pixel :=
  if interior (height im) y && interior (width im) x
  then build (mode im) (filter3x3_band im k x y)
  else px_at im x y.

(** [Image.filter(kernel)] ([ImagingFilter]): an image smaller than the
    kernel is returned as a copy. *)
Definition filter (im : Image) (k : Kernel3) : Image :=
  if Nat.ltb (width im) 3 || Nat.ltb (height im) 3 then im
  else mkImage (mode im) (size im) (tabulate (width im) (height im) (filter3x3_pixel im k)).

(** *** Channels, cropping, drawing, pasting *)

Definition has_alpha (m : Mode) : bool :=
  match m with LA | RGBA => true | _ => false end.

(** [Image.getchannel(c)]: band [c] as an image of mode [L]. *)
Definition getchannel (im : Image) (c : nat) : Image :=
  mkImage L (size im) (map (map (fun p => PL (chan c p))) (data im)).

(** Index of the alpha band in the modes that have one. *)
Definition alpha_band (m : Mode) : nat := (bands m - 1)%nat.

(** A pixel read at integer coordinates; [ImagingCrop] fills what lies
    outside the source with zero bytes. *)
Definition px_in (im : Image) (X Y : Z) : pixel :=
  if (0 <=? X) && (X <? Z.of_nat (width im)) && (0 <=? Y) && (Y <? Z.of_nat (height im))
  then px_at im (Z.to_nat X) (Z.to_nat Y)
  else zero_pixel (mode im).

(** [Image.MAX_IMAGE_PIXELS = int(1024 * 1024 * 1024 // 4 // 3)]. *)
Definition MAX_IMAGE_PIXELS : Z := 1024 * 1024 * 1024 / 4 / 3.

(** [_decompression_bomb_check(size)].  Above twice the limit it raises;
    between the limit and twice the limit it only issues a
    [DecompressionBombWarning], which leaves the result as it is. *)
Definition _decompression_bomb_check (size : Z * Z) : result unit :=
  let pixels := Z.max 1 (fst size) * Z.max 1 (snd size) in
  if 2 * MAX_IMAGE_PIXELS <? pixels
  then Raise (DecompressionBombError
                ("Image size (" ++ str pixels ++ " pixels) exceeds limit of "
                 ++ str (2 * MAX_IMAGE_PIXELS)
                 ++ " pixels, could be decompression bomb DOS attack."))
  else Ok tt.

(** [Image.crop((left, upper, right, lower))]: the two coordinate checks,
    then [Image._crop], which runs the decompression bomb check on the
    size of the box before the C routine allocates the region. *)
Definition crop (im : Image) (box : Z * Z * Z * Z) : result Image :=
  let '(x0, y0, x1, y1) := box in
  if x1 <? x0 then Raise (ValueError "Coordinate 'right' is less than 'left'")
  else if y1 <? y0 then Raise (ValueError "Coordinate 'lower' is less than 'upper'")
  else
    checked <- _decompression_bomb_check (Z.abs (x1 - x0), Z.abs (y1 - y0)) ;;
    Ok (mkImage (mode im) (Z.to_nat (x1 - x0), Z.to_nat (y1 - y0))
          (tabulate (Z.to_nat (x1 - x0)) (Z.to_nat (y1 - y0))
             (fun x y => px_in im (x0 + Z.of_nat x) (y0 + Z.of_nat y)))).

(** [ImageDraw.Draw(im).rectangle([x0, y0, x1, y1], fill=fill)].  Both
    corners belong to the rectangle ([ImagingDrawRectangle] runs
    [y0 <= y <= y1] and [hline] fills [x0 .. x1]), clipped to the image.
    Python draws in place; the model returns the image drawn on. *)
Definition rectangle (im : Image) (xy : Z * Z * Z * Z) (fill : Z) : result Image :=
  let '(x0, y0, x1, y1) := xy in
  if x1 <? x0 then Raise (ValueError "x1 must be greater than or equal to x0")
  else if y1 <? y0 then Raise (ValueError "y1 must be greater than or equal to y0")
  else Ok (mkImage (mode im) (size im)
             (tabulate (width im) (height im)
                (fun x y =>
                   if (x0 <=? Z.of_nat x) && (Z.of_nat x <=? x1)
                      && (y0 <=? Z.of_nat y) && (Z.of_nat y <=? y1)
                   then ink (mode im) fill
                   else px_at im x y))).

(** [Paste.c]: [DIV255] and [BLEND]. *)
Definition DIV255 (a : Z) : Z :=
  let tmp := a + 128 in Z.shiftr (Z.shiftr tmp 8 + tmp) 8.

Definition BLEND (mask in1 in2 : Z) : Z := DIV255 (in1 * (255 - mask) + in2 * mask).

(** The matte value a mask pixel carries: the grey level of an [L] mask,
    the alpha band of an [LA] or [RGBA] mask. *)
Definition mask_value (m : Image) (x y : nat) : Z :=
  match mode m with
  | L => chan 0 (px_at m x y)
  | _ => chan (alpha_band (mode m)) (px_at m x y)
  end.

(** [Image.paste(im, (ox, oy), mask)] with a two-item box: the region is
    [im.size] large.  A source of another mode is converted to the
    destination's; for an [RGB] destination and an [LA] or [RGBA] source
    Pillow skips the conversion and the C routine copies the colour bytes
    of the four-byte pixel, which is the pixel [convert] yields.
    [ImagingPaste] refuses a mask whose size is not the region's, then
    writes the part of the region that lies inside the destination.
    Python pastes in place; the model returns the image pasted on. *)
Definition paste (self im : Image) (box : nat * nat) (mask : option Image)
  : result Image :=
  let '(ox, oy) := box in
  let src := convert im (mode self) in
  let inside x y :=
    Nat.leb ox x && Nat.ltb x (ox + width im) && Nat.leb oy y && Nat.ltb y (oy + height im) in
  match mask with
  | None =>
      Ok (mkImage (mode self) (size self)
            (tabulate (width self) (height self)
               (fun x y => if inside x y then px_at src (x - ox) (y - oy)
                           else px_at self x y)))
  | Some m =>
      if negb (size_eqb (size m) (size im))
      then Raise (ValueError "images do not match")
      else match mode m with
           | RGB => Raise (ValueError "bad transparency mask")
           | _ =>
               Ok (mkImage (mode self) (size self)
                     (tabulate (width self) (height self)
                        (fun x y =>
                           if inside x y
                           then zip_pixel (BLEND (mask_value m (x - ox) (y - oy)))
                                  (px_at self x y) (px_at src (x - ox) (y - oy))
                           else px_at self x y)))
           end
  end.

(** *** Filters computed in floating point *)

(** The bicubic resampler behind [Image.resize] and the box-blur passes
    behind [ImageFilter.GaussianBlur] work in floating point; their pixel
    output is left abstract.  What the C entry points fix, the mode and
    size of the image they allocate, is modelled below. *)
Class FloatFilters := {
  resample : Image -> nat * nat -> list (list pixel);
  gaussian_blur : Image -> Q -> list (list pixel)
}.

(** [Image.resize(size)]: a copy when the size is unchanged; otherwise
    the C routine refuses a target with an empty side and resamples. *)
Definition resize `{FloatFilters} (im : Image) (sz : nat * nat) : result Image :=
  if size_eqb (size im) sz then Ok im
  else if Nat.ltb (fst sz) 1 || Nat.ltb (snd sz) 1
       then Raise (ValueError "height and width must be > 0")
       else Ok (mkImage (mode im) sz (resample im sz)).

(** [Image.filter(ImageFilter.GaussianBlur(radius))]. *)
Definition filter_GaussianBlur `{FloatFilters} (im : Image) (radius : Q) : Image :=
  if Qeq_bool radius 0 then im
  else mkImage (mode im) (size im) (gaussian_blur im radius).

(** *** ImageEnhance and ImageOps *)

(** [ImageEnhance.Color]: the degenerate image is the greyscale version
    of the image, with the alpha band kept when there is one. *)
Record Color := mkColor { image : Image; intermediate_mode : Mode; degenerate : Image }.

Definition Color_init (image : Image) : Color :=
  let intermediate_mode := if has_alpha (mode image) then LA else L in
  let degenerate :=
    if Mode_eqb intermediate_mode (mode image) then image
    else convert (convert image intermediate_mode) (mode image) in
  mkColor image intermediate_mode degenerate.

(** [_Enhance.enhance(factor)]. *)
Definition enhance (e : Color) (factor : Q) : result Image :=
  blend (degenerate e) (image e) factor.

(** [ImageOps.grayscale]. *)
Definition grayscale (im : Image) : Image := convert im L.

End PIL.

(** ** NumPy *)

Module np.

(** [np.array(image)] of an [RGBA] image: a [uint8] array of shape
    [(height, width, 4)].  The last axis is a 4-tuple. *)
Definition rgba := (Z * Z * Z * Z)%type.

Record ndarray := mkArray { shape : nat * nat; cells : list (list rgba) }.

Definition rgba_of (p : PIL.pixel) : rgba :=
  match PIL.convert_pixel PIL.RGBA p with
  | PIL.PRGBA r g b a => (r, g, b, a)
  | _ => (0, 0, 0, 0)
  end.

Definition array (image : PIL.Image) : ndarray :=
  mkArray (PIL.height image, PIL.width image) (map (map rgba_of) (PIL.data image)).

(** [Image.fromarray(data)]: mode [RGBA], size [(shape[1], shape[0])]. *)
Definition fromarray (a : ndarray) : PIL.Image :=
  PIL.mkImage PIL.RGBA (snd (shape a), fst (shape a))
    (map (map (fun '(r, g, b, a) => PIL.PRGBA r g b a)) (cells a)).

(** The four planes [red, green, blue, alpha = data.T].  The source
    transposes the array to unpack it and transposes the mask back before
    indexing with it; the planes are kept in row-major order here. *)
Definition plane (c : nat) (a : ndarray) : list (list Z) :=
  map (map (fun '(r, g, b, al) =>
              match c with
              | O => r | S O => g | S (S O) => b | _ => al
              end)) (cells a).

(** [plane > k] and [m1 & m2], element by element. *)
Definition gt (p : list (list Z)) (k : Z) : list (list bool) :=
  map (map (fun v => k <? v)) p.

Definition and_ (m1 m2 : list (list bool)) : list (list bool) :=
  zipWith (zipWith andb) m1 m2.

(** [data[..., :-1][mask] = (r, g, b)]: the colour bands of the selected
    cells are overwritten. *)
Definition setitem_rgb (a : ndarray) (mask : list (list bool)) (v : Z * Z * Z) : ndarray :=
  mkArray (shape a)
    (zipWith (zipWith (fun (m : bool) '(r, g, b, al) =>
                         if m then (let '(r', g', b') := v in (r', g', b', al))
                         else (r, g, b, al)))
       mask (cells a)).

(** [data[..., -1][mask] = v]: the last band of the selected cells. *)
Definition setitem_last (a : ndarray) (mask : list (list bool)) (v : Z) : ndarray :=
  mkArray (shape a)
    (zipWith (zipWith (fun (m : bool) '(r, g, b, al) =>
                         if m then (r, g, b, v) else (r, g, b, al)))
       mask (cells a)).

End np.

(** ** image_processing.py *)

Section ImageProcessing.

Context `{PIL.FloatFilters}.

Definition remove_white_background (image : PIL.Image) : PIL.Image :=
  let image := PIL.convert image PIL.RGBA in
  let data := np.array image in
  let red := np.plane 0 data in
  let green := np.plane 1 data in
  let blue := np.plane 2 data in
  let white_areas := np.and_ (np.and_ (np.gt red 240) (np.gt green 240)) (np.gt blue 240) in
  let data := np.setitem_rgb data white_areas (0, 0, 0) in
  let data := np.setitem_last data white_areas 0 in
  np.fromarray data.

Definition enhance_colors (image : PIL.Image) : result PIL.Image :=
  let enhancer := PIL.Color_init image in
  PIL.enhance enhancer 1.5.

Definition create_depth_map (image : PIL.Image) : PIL.Image :=
  let gray := PIL.grayscale image in
  let depth := PIL.filter_GaussianBlur gray 5 in
  depth.

Definition create_3d_effect (image : PIL.Image) : result PIL.Image :=
  let embossed := PIL.filter image PIL.EMBOSS in
  let edges := PIL.filter image PIL.FIND_EDGES in
  combined <- PIL.blend embossed edges 0.5 ;;
  Ok combined.

Definition full_2d_to_3d_pipeline (image : PIL.Image)
  : result (PIL.Image * PIL.Image * PIL.Image) :=
  let cleaned := remove_white_background image in
  enhanced <- enhance_colors cleaned ;;
  let depth := create_depth_map enhanced in
  final_3d <- create_3d_effect enhanced ;;
  Ok (cleaned, depth, final_3d).

(** ** image_tools.py *)

Definition create_before_after_comparison
  (before_img after_img : PIL.Image) (slider_position : Z) : result PIL.Image :=
  after_img_resized <- PIL.resize after_img (PIL.size before_img) ;;
  let '(w, h) := PIL.size before_img in
  cropped <- PIL.crop after_img_resized (0, 0, slider_position, Z.of_nat h) ;;
  let composite := PIL.new PIL.RGB (w, h) 0 in
  composite <- PIL.paste composite before_img (0, 0)%nat None ;;
  let mask := PIL.new PIL.L (w, h) 0 in
  mask <- PIL.rectangle mask (0, 0, slider_position, Z.of_nat h) 255 ;;
  composite <- PIL.paste composite cropped (0, 0)%nat (Some mask) ;;
  Ok composite.

End ImageProcessing.

(** ** models/nft_mining.py: the registry of minted NFTs *)

Module nft_mining.

(** An attribute is a small dict ([trait_type], [value] and sometimes
    [display_type]); it is kept as the list of its items. *)
Record NFTMetadata := mkMetadata {
  name : string;
  description : string;
  image : string;
  external_url : string;
  animation_url : string;
  attributes : list (list (string * string))
}.

Record NFT := mkNFT {
  token_id : string;
  owner : string;
  metadata : NFTMetadata;
  contract_address : string;
  network : string;
  minted_at : string;
  transaction_hash : string;
  block_number : Z;
  token_standard : string
}.

(** [nft.owner = to_address] *)
Definition set_owner (nft : NFT) (to_address : string) : NFT :=
  mkNFT (token_id nft) to_address (metadata nft) (contract_address nft) (network nft)
    (minted_at nft) (transaction_hash nft) (block_number nft) (token_standard nft).

(** The product dict, by the keys the module reads; [None] is a missing
    key. *)
Record ProductData := mkProduct {
  pd_name : option string;
  pd_description : option string;
  pd_category : option string;
  pd_animated : option bool;
  pd_ai_generated : option bool;
  pd_water_saved : option Z;
  pd_co2_saved : option Z
}.

(** [d.get(key, default)] *)
Definition get {A} (v : option A) (default : A) : A :=
  match v with Some a => a | None => default end.

Definition _calculate_rarity (product_data : ProductData) : string :=
  let score := 0 in
  let score := if get (pd_ai_generated product_data) false then score + 2 else score in
  let score := if 5000 <? get (pd_water_saved product_data) 0 then score + 1 else score in
  let score := if 20 <? get (pd_co2_saved product_data) 0 then score + 1 else score in
  if 4 <=? score then "Legendary"
  else if 3 <=? score then "Epic"
  else if 2 <=? score then "Rare"
  else "Common".

(** [NFTMinter.transfer_nft]: the first NFT with this token id and this
    owner changes hands.  The method mutates [self.minted_nfts]; the model
    returns the answer and the list after the call. *)
Fixpoint transfer_nft (minted_nfts : list NFT) (token from_address to_address : string)
  : bool * list NFT :=
  match minted_nfts with
  | [] => (false, [])
  | nft :: rest =>
      if String.eqb (token_id nft) token && String.eqb (owner nft) from_address
      then (true, set_owner nft to_address :: rest)
      else let '(done, rest') := transfer_nft rest token from_address to_address in
           (done, nft :: rest')
  end.

Definition get_nfts_by_owner (minted_nfts : list NFT) (owner_address : string) : list NFT :=
  List.filter (fun nft => String.eqb (owner nft) owner_address) minted_nfts.

Fixpoint get_nft_by_token_id (minted_nfts : list NFT) (token : string) : option NFT :=
  match minted_nfts with
  | [] => None
  | nft :: rest =>
      if String.eqb (token_id nft) token then Some nft
      else get_nft_by_token_id rest token
  end.

Definition verify_ownership (minted_nfts : list NFT) (token owner_address : string) : bool :=
  match get_nft_by_token_id minted_nfts token with
  | Some nft => String.eqb (owner nft) owner_address
  | None => false
  end.

End nft_mining.

(** Two minted NFTs with distinct token ids, to run the registry on. *)
Definition sample_nfts : list nft_mining.NFT :=
  [ nft_mining.mkNFT "0x1a2b3c4d5e6f7890" "0xSIH2024User1"
      (nft_mining.mkMetadata "Eco-Glow Dress" "AI-generated sustainable dress"
         "https://ipfs.io/ipfs/QmXyZ123/eco-dress.png" "" ""
         [[("trait_type", "Rarity"); ("value", "Rare")]])
      "0x88B48F654c30e99bc2e4A1559b4Df1aD93B6C5d6" "Polygon Mumbai"
      "2024-01-15T10:00:00" "0xaa" 1000001 "ERC-721";
    nft_mining.mkNFT "0x2b3c4d5e6f7890a1" "0xSIH2024User2"
      (nft_mining.mkMetadata "Solar Panel Hoodie" "Digital hoodie"
         "https://ipfs.io/ipfs/QmAbC456/solar-hoodie.png" "" ""
         [[("trait_type", "Rarity"); ("value", "Epic")]])
      "0x742d35Cc6634C0532925a3b844Bc9e0E5C7b7a1a" "Polygon Mumbai"
      "2024-01-15T10:00:01" "0xbb" 1000002 "ERC-721" ]%string.

(** ** Well-formed images and the spec's per-pixel rules *)

Import PIL.

Definition byteb (v : Z) : bool := (0 <=? v) && (v <=? 255).

(** A pixel has the layout of mode [m] and every band is a byte. *)
Definition pixel_okb (m : Mode) (p : pixel) : bool :=
  match m, p with
  | L, PL l => byteb l
  | LA, PLA l a => byteb l && byteb a
  | RGB, PRGB r g b => byteb r && byteb g && byteb b
  | RGBA, PRGBA r g b a => byteb r && byteb g && byteb b && byteb a
  | _, _ => false
  end.

(** The raster has [height] rows of [width] pixels of the image's mode:
    what every image Pillow decodes or builds satisfies. *)
Definition wfb (im : Image) : bool :=
  Nat.eqb (length (data im)) (height im)
  && forallb (fun row => Nat.eqb (length row) (width im) && forallb (pixel_okb (mode im)) row)
       (data im).

(** The keying rule as the spec words it: a pixel is background when all
    three colour bands exceed the threshold; background becomes
    [(0, 0, 0, 0)], anything else passes through with its alpha. *)
Definition BackgroundKeyer_pixel (threshold : Z) (p : np.rgba) : np.rgba :=
  let '(r, g, b, a) := p in
  if (threshold <? r) && (threshold <? g) && (threshold <? b)
  then (0, 0, 0, 0) else (r, g, b, a).

Definition pixel_of_rgba (p : np.rgba) : pixel :=
  let '(r, g, b, a) := p in PRGBA r g b a.

(** An image of one colour. *)
Definition solid (m : Mode) (w h : nat) (p : pixel) : Image :=
  mkImage m (w, h) (tabulate w h (fun _ _ => p)).

Definition red10 : Image := solid RGB 10 10 (PRGB 255 0 0).
Definition blue10 : Image := solid RGB 10 10 (PRGB 0 0 255).

(** An opaque 3x3 image and a small translucent one. *)
Definition opaque3 : Image := solid RGBA 3 3 (PRGBA 10 20 30 255).
Definition glass2 : Image :=
  mkImage RGBA (2, 1)%nat [[PRGBA 200 100 50 77; PRGBA 250 251 252 9]].

(** Nearest-neighbour resampling and a blur that leaves the raster alone:
    an instance of the floating point filters to run the model with. *)
Definition nearest (im : Image) (sz : nat * nat) : list (list pixel) :=
  tabulate (fst sz) (snd sz)
    (fun x y => px_at im (x * width im / fst sz) (y * height im / snd sz)).

Definition plain_filters : FloatFilters :=
  {| resample := nearest; gaussian_blur := fun im _ => data im |}.

(** ** Per-pixel readings of the stages *)

(** What [ImageEnhance.Color] makes of one pixel of an image of mode [m]:
    the grey pixel of the degenerate image, and the pixel extrapolated
    from it with factor 1.5. *)
Definition degenerate_pixel (m : Mode) (p : pixel) : pixel :=
  let intermediate := if has_alpha m then LA else L in
  if Mode_eqb intermediate m then p
  else convert_pixel m (convert_pixel intermediate p).

Definition enhance_pixel (m : Mode) (p : pixel) : pixel :=
  zip_pixel (blend_extrapolate 1.5) (degenerate_pixel m p) p.

(** Saturation to the byte range. *)
Definition clamp255 (v : Z) : Z := Z.max 0 (Z.min 255 v).

(** A pixel without colour: its colour bands are equal. *)
Definition greyb (p : pixel) : bool :=
  match p with
  | PL _ | PLA _ _ => true
  | PRGB r g b | PRGBA r g b _ => (r =? g) && (g =? b)
  end.

(** A pixel on the rim of a [w] x [h] raster. *)
Definition on_border (w h x y : nat) : bool :=
  negb (interior h y && interior w x).

(** Emboss and edge response of band value [v] with lower-left neighbour
    [sw] and neighbour sum [ring], and their equal-weight blend. *)
Definition emboss_value (v sw : Z) : Z := clamp255 (128 + v - sw).
Definition edge_value (v ring : Z) : Z := clamp255 (8 * v - ring).
Definition effect_value (v sw ring : Z) : Z :=
  (emboss_value v sw + edge_value v ring) / 2.

(** Sum of band [c] over the eight neighbours of [(x, y)]. *)
Definition ring_sum (im : Image) (c x y : nat) : Z :=
  chan c (px_at im (x - 1) (y - 1)) + chan c (px_at im x (y - 1))
  + chan c (px_at im (x + 1) (y - 1))
  + chan c (px_at im (x - 1) y) + chan c (px_at im (x + 1) y)
  + chan c (px_at im (x - 1) (y + 1)) + chan c (px_at im x (y + 1))
  + chan c (px_at im (x + 1) (y + 1)).

(** * Properties *)

(** ** Lists and rasters *)

Lemma zipWith_map {A B C D} (f : B -> C -> D) (g : A -> B) (h : A -> C) (l : list A) :
  zipWith f (map g l) (map h l) = map (fun a => f (g a) (h a)) l.
Proof.
  induction l as [|a l IH]; simpl; [reflexivity|].
  now rewrite IH.
Qed.

Lemma zipWith_map2 {A B C D} (f : B -> C -> D) (g : A -> B) (h : A -> C)
  (ll : list (list A)) :
  zipWith (zipWith f) (map (map g) ll) (map (map h) ll)
  = map (map (fun a => f (g a) (h a))) ll.
Proof.
  rewrite zipWith_map. apply map_ext. intros row. apply zipWith_map.
Qed.

Lemma zipWith_map_l {A B C} (f : B -> A -> C) (g : A -> B) (ll : list (list A)) :
  zipWith (zipWith f) (map (map g) ll) ll = map (map (fun a => f (g a) a)) ll.
Proof.
  rewrite <- (map_id ll) at 2.
  rewrite <- (map_ext _ _ (fun row => map_id row)).
  apply zipWith_map2.
Qed.

Lemma map_map2 {A B C} (f : A -> B) (g : B -> C) (ll : list (list A)) :
  map (map g) (map (map f) ll) = map (map (fun a => g (f a))) ll.
Proof.
  rewrite map_map. apply map_ext. intros row. apply map_map.
Qed.

Lemma zipWith_tabulate {A B C} (f : A -> B -> C) w h (g : nat -> nat -> A)
  (k : nat -> nat -> B) :
  zipWith (zipWith f) (tabulate w h g) (tabulate w h k)
  = tabulate w h (fun x y => f (g x y) (k x y)).
Proof.
  unfold tabulate. rewrite zipWith_map. apply map_ext. intros y.
  apply zipWith_map.
Qed.

Lemma map_tabulate {A B} (f : A -> B) w h (g : nat -> nat -> A) :
  map (map f) (tabulate w h g) = tabulate w h (fun x y => f (g x y)).
Proof.
  unfold tabulate. rewrite map_map. apply map_ext. intros y. apply map_map.
Qed.

Lemma tabulate_ext {A} w h (f g : nat -> nat -> A) :
  (forall x y, (x < w)%nat -> (y < h)%nat -> f x y = g x y) ->
  tabulate w h f = tabulate w h g.
Proof.
  intros E. unfold tabulate. apply map_ext_in. intros y Hy.
  apply map_ext_in. intros x Hx.
  apply in_seq in Hx, Hy. apply E; lia.
Qed.

Lemma nth_tabulate {A} w h (f : nat -> nat -> A) x y d :
  (x < w)%nat -> (y < h)%nat -> nth x (nth y (tabulate w h f) []) d = f x y.
Proof.
  intros Hx Hy. unfold tabulate.
  rewrite (nth_indep _ [] (map (fun x0 => f x0 0%nat) (seq 0 w)))
    by (rewrite length_map, length_seq; exact Hy).
  rewrite (map_nth (fun y0 => map (fun x0 => f x0 y0) (seq 0 w)) (seq 0 h) 0%nat y).
  rewrite seq_nth by exact Hy. simpl.
  rewrite (nth_indep _ d (f 0%nat y))
    by (rewrite length_map, length_seq; exact Hx).
  rewrite (map_nth (fun x0 => f x0 y) (seq 0 w) 0%nat x).
  rewrite seq_nth by exact Hx. reflexivity.
Qed.

(** ** Background keying *)

Lemma rgba_of_convert p : np.rgba_of (convert_pixel RGBA p) = np.rgba_of p.
Proof. destruct p; reflexivity. Qed.

Lemma rgba_of_pixel_of_rgba q : np.rgba_of (pixel_of_rgba q) = q.
Proof. destruct q as [[[r g] b] a]. reflexivity. Qed.

Lemma array_convert_RGBA image :
  np.array (convert image RGBA)
  = np.mkArray (height image, width image) (map (map np.rgba_of) (data image)).
Proof.
  unfold convert, np.array.
  destruct (Mode_eqb RGBA (mode image)); [reflexivity|].
  unfold height, width. simpl. f_equal.
  rewrite map_map2. apply map_ext. intros row. apply map_ext. intros p.
  apply rgba_of_convert.
Qed.

(** The vectorised masking computes the per-pixel rule of the spec. *)
Lemma remove_white_background_pixelwise image :
  remove_white_background image
  = mkImage RGBA (size image)
      (map (map (fun p => pixel_of_rgba (BackgroundKeyer_pixel 240 (np.rgba_of p))))
         (data image)).
Proof.
  unfold remove_white_background. rewrite array_convert_RGBA.
  unfold np.fromarray, np.setitem_last, np.setitem_rgb, np.and_, np.gt, np.plane.
  cbn [np.shape np.cells fst snd].
  unfold width, height. destruct (size image) as [w h]. cbn [fst snd]. f_equal.
  rewrite !map_map2, !zipWith_map2, map_map2.
  apply map_ext. intros row. apply map_ext. intros p.
  destruct (np.rgba_of p) as [[[r g] b] a]. cbn.
  destruct (240 <? r), (240 <? g), (240 <? b); reflexivity.
Qed.

Lemma BackgroundKeyer_pixel_idem t q :
  0 <= t -> BackgroundKeyer_pixel t (BackgroundKeyer_pixel t q) = BackgroundKeyer_pixel t q.
Proof.
  intros Ht. destruct q as [[[r g] b] a]. unfold BackgroundKeyer_pixel.
  destruct ((t <? r) && (t <? g) && (t <? b)) eqn:E.
  - replace (t <? 0) with false by (symmetry; apply Z.ltb_ge; exact Ht). reflexivity.
  - rewrite E. reflexivity.
Qed.

(** C3: [remove_white_background] sends every pixel whose red, green and
    blue all exceed 240 (strictly) to [(0, 0, 0, 0)] and returns every
    other pixel as it is, alpha included; a 1x1 image of
    [(255, 255, 255, 255)] becomes [(0, 0, 0, 0)] and a 1x1 image of
    [(240, 240, 240, 255)] comes back unchanged. *)
Theorem C3_background_keyer_pixel_rule :
  (forall image,
      remove_white_background image
      = mkImage RGBA (size image)
          (map (map (fun p => pixel_of_rgba (BackgroundKeyer_pixel 240 (np.rgba_of p))))
             (data image)))
  /\ (forall r g b a,
         pixel_of_rgba (BackgroundKeyer_pixel 240 (np.rgba_of (PRGBA r g b a)))
         = if (240 <? r) && (240 <? g) && (240 <? b)
           then PRGBA 0 0 0 0 else PRGBA r g b a)
  /\ remove_white_background (solid RGBA 1 1 (PRGBA 255 255 255 255))
     = solid RGBA 1 1 (PRGBA 0 0 0 0)
  /\ remove_white_background (solid RGBA 1 1 (PRGBA 240 240 240 255))
     = solid RGBA 1 1 (PRGBA 240 240 240 255).
Proof.
  split; [exact remove_white_background_pixelwise|].
  split; [|split; reflexivity].
  intros r g b a. cbn.
  destruct ((240 <? r) && (240 <? g) && (240 <? b)); reflexivity.
Qed.

(** C5: keying is idempotent: a second [remove_white_background] returns
    the image the first one returned. *)
Theorem C5_background_keyer_idempotent image :
  remove_white_background (remove_white_background image)
  = remove_white_background image.
Proof.
  rewrite (remove_white_background_pixelwise (remove_white_background image)).
  rewrite (remove_white_background_pixelwise image).
  cbn [size data]. f_equal.
  rewrite map_map2. apply map_ext. intros row. apply map_ext. intros p.
  rewrite rgba_of_pixel_of_rgba, BackgroundKeyer_pixel_idem by lia.
  reflexivity.
Qed.

(** ** Modes and sizes through the Pillow operations *)

Lemma Mode_eqb_eq m n : Mode_eqb m n = true <-> m = n.
Proof. destruct m, n; simpl; split; intros E; try reflexivity; discriminate. Qed.

Lemma Mode_eqb_refl m : Mode_eqb m m = true.
Proof. destruct m; reflexivity. Qed.

Lemma size_eqb_eq a b : size_eqb a b = true <-> a = b.
Proof.
  destruct a as [w h], b as [w' h']. unfold size_eqb. simpl.
  rewrite andb_true_iff, !Nat.eqb_eq. split.
  - intros [-> ->]. reflexivity.
  - intros E. injection E as -> ->. split; reflexivity.
Qed.

Lemma size_eqb_refl a : size_eqb a a = true.
Proof. apply size_eqb_eq. reflexivity. Qed.

Lemma mode_convert im m : mode (convert im m) = m.
Proof.
  unfold convert. destruct (Mode_eqb m (mode im)) eqn:E; [|reflexivity].
  apply Mode_eqb_eq in E. symmetry. exact E.
Qed.

Lemma size_convert im m : size (convert im m) = size im.
Proof. unfold convert. destruct (Mode_eqb m (mode im)); reflexivity. Qed.

Lemma mode_filter im k : mode (filter im k) = mode im.
Proof.
  unfold filter. destruct (Nat.ltb (width im) 3 || Nat.ltb (height im) 3); reflexivity.
Qed.

Lemma size_filter im k : size (filter im k) = size im.
Proof.
  unfold filter. destruct (Nat.ltb (width im) 3 || Nat.ltb (height im) 3); reflexivity.
Qed.

(** Two images of one mode and one size blend without an exception. *)
Lemma blend_matching im1 im2 alpha :
  mode im1 = mode im2 -> size im1 = size im2 ->
  Qeq_bool alpha 0 = false -> Qeq_bool alpha 1 = false ->
  blend im1 im2 alpha
  = Ok (mkImage (mode im1) (size im1)
          (zipWith (zipWith (zip_pixel
             (if Qle_bool 0 alpha && Qle_bool alpha 1
              then blend_interpolate alpha else blend_extrapolate alpha)))
             (data im1) (data im2))).
Proof.
  intros Hm Hs H0 H1. unfold blend.
  rewrite Hm, Hs, Nat.eqb_refl, size_eqb_refl, H0, H1. reflexivity.
Qed.

Lemma mode_degenerate image : mode (degenerate (Color_init image)) = mode image.
Proof.
  unfold Color_init. cbn [degenerate].
  destruct (Mode_eqb _ (mode image)); [reflexivity|apply mode_convert].
Qed.

Lemma size_degenerate image : size (degenerate (Color_init image)) = size image.
Proof.
  unfold Color_init. cbn [degenerate].
  destruct (Mode_eqb _ (mode image)); [reflexivity|].
  now rewrite !size_convert.
Qed.

(** ** Colour enhancement *)

Lemma enhance_colors_eq im :
  enhance_colors im
  = Ok (mkImage (mode im) (size im)
          (zipWith (zipWith (zip_pixel (blend_extrapolate 1.5)))
             (data (degenerate (Color_init im))) (data im))).
Proof.
  unfold enhance_colors, enhance.
  rewrite blend_matching; try reflexivity.
  - cbn [PIL.image]. now rewrite mode_degenerate, size_degenerate.
  - cbn [PIL.image]. apply mode_degenerate.
  - cbn [PIL.image]. apply size_degenerate.
Qed.

Lemma create_3d_effect_eq image :
  create_3d_effect image
  = Ok (mkImage (mode image) (size image)
          (zipWith (zipWith (zip_pixel (blend_interpolate 0.5)))
             (data (filter image EMBOSS)) (data (filter image FIND_EDGES)))).
Proof.
  unfold create_3d_effect.
  rewrite blend_matching; try reflexivity.
  - cbn [bind]. now rewrite mode_filter, size_filter.
  - now rewrite !mode_filter.
  - now rewrite !size_filter.
Qed.

Lemma byteb_spec v : byteb v = true <-> 0 <= v <= 255.
Proof. unfold byteb. rewrite andb_true_iff, !Z.leb_le. reflexivity. Qed.

Lemma wfb_pixels im :
  wfb im = true -> Forall (Forall (fun p => pixel_okb (mode im) p = true)) (data im).
Proof.
  unfold wfb. rewrite andb_true_iff. intros [_ Hrows].
  rewrite forallb_forall in Hrows. apply Forall_forall. intros row Hrow.
  specialize (Hrows row Hrow). rewrite andb_true_iff in Hrows.
  destruct Hrows as [_ Hpx]. rewrite forallb_forall in Hpx.
  apply Forall_forall. exact Hpx.
Qed.

Lemma map2_ext_Forall {A B} (P : A -> Prop) (f g : A -> B) (ll : list (list A)) :
  Forall (Forall P) ll -> (forall a, P a -> f a = g a) ->
  map (map f) ll = map (map g) ll.
Proof.
  intros Hll E. apply map_ext_in. intros row Hrow.
  rewrite Forall_forall in Hll. specialize (Hll row Hrow).
  rewrite Forall_forall in Hll. apply map_ext_in. intros a Ha. apply E, Hll, Ha.
Qed.

Lemma zipWith_diag {A B} (f : A -> A -> B) (ll : list (list A)) :
  zipWith (zipWith f) ll ll = map (map (fun a => f a a)) ll.
Proof.
  rewrite <- (zipWith_map2 f (fun a => a) (fun a => a)).
  now rewrite (map_ext _ _ (fun row : list A => map_id row)), map_id.
Qed.

(** Extrapolating from a byte towards itself gives the byte back. *)
Lemma blend_extrapolate_same a :
  byteb a = true -> blend_extrapolate 1.5 a a = a.
Proof.
  rewrite byteb_spec. intros Ha. unfold blend_extrapolate, blend_num.
  cbn [Qnum Qden]. rewrite Z.sub_diag, Z.mul_0_r, Z.add_0_r.
  destruct (Z.leb_spec (a * 10) 0); [lia|].
  destruct (Z.leb_spec (255 * 10) (a * 10)); [lia|].
  now rewrite Z.quot_mul by lia.
Qed.

(** C7: on an image with an alpha band, [enhance_colors] returns an image
    of the same size and mode whose alpha band is the input's. *)
Theorem C7_enhance_colors_keeps_alpha image :
  wfb image = true -> has_alpha (mode image) = true ->
  exists out,
    enhance_colors image = Ok out
    /\ size out = size image
    /\ mode out = mode image
    /\ getchannel out (alpha_band (mode image))
       = getchannel image (alpha_band (mode image)).
Proof.
  intros Hwf Ha. eexists. split; [apply enhance_colors_eq|].
  split; [reflexivity|]. split; [reflexivity|].
  unfold getchannel. cbn [size data]. f_equal.
  apply wfb_pixels in Hwf. unfold Color_init. cbn [degenerate].
  destruct (mode image) eqn:Em; try discriminate Ha; cbn [has_alpha Mode_eqb].
  - rewrite zipWith_diag, map_map2.
    apply (map2_ext_Forall _ _ _ _ Hwf). intros p Hp.
    destruct p; try discriminate Hp. cbn in Hp |- *.
    apply andb_true_iff in Hp. destruct Hp as [_ Hb].
    now rewrite blend_extrapolate_same.
  - unfold convert. rewrite Em. cbn [Mode_eqb mode data].
    rewrite map_map2, zipWith_map_l, map_map2.
    apply (map2_ext_Forall _ _ _ _ Hwf). intros p Hp.
    destruct p; try discriminate Hp. cbn in Hp |- *.
    apply andb_true_iff in Hp. destruct Hp as [_ Hb].
    now rewrite blend_extrapolate_same.
Qed.

Lemma C7_enhance_colors_keeps_alpha_witness :
  exists out,
    enhance_colors glass2 = Ok out
    /\ size out = size glass2
    /\ mode out = mode glass2
    /\ getchannel out (alpha_band (mode glass2))
       = getchannel glass2 (alpha_band (mode glass2)).
Proof. apply (C7_enhance_colors_keeps_alpha glass2); reflexivity. Defined.

(** ** The 3D effect, band by band *)

Lemma chan_zero_pixel m c : chan c (zero_pixel m) = 0.
Proof. destruct m; destruct c as [|[|[|[|c]]]]; reflexivity. Qed.

Lemma px_at_getchannel im c x y :
  px_at (getchannel im c) x y = PL (chan c (px_at im x y)).
Proof.
  unfold px_at, getchannel. cbn [data mode zero_pixel].
  change (@nil pixel) with (map (fun p => PL (chan c p)) []) at 1.
  rewrite (map_nth (map (fun p => PL (chan c p)))).
  rewrite <- (chan_zero_pixel (mode im) c).
  apply (map_nth (fun p => PL (chan c p))).
Qed.

Lemma KERNEL1x3_getchannel im c k i x y :
  KERNEL1x3 (getchannel im c) 0 k i x y = KERNEL1x3 im c k i x y.
Proof. unfold KERNEL1x3. now rewrite !px_at_getchannel. Qed.

Lemma filter3x3_band_getchannel im c k x y :
  filter3x3_band (getchannel im c) k x y 0 = filter3x3_band im k x y c.
Proof. unfold filter3x3_band. now rewrite !KERNEL1x3_getchannel. Qed.

Lemma chan_zip_diag f c p :
  f 0 0 = 0 -> chan c (zip_pixel f p p) = f (chan c p) (chan c p).
Proof.
  intros F0. destruct p; destruct c as [|[|[|[|c]]]]; cbn; auto.
Qed.

Lemma chan_zip_build f m e g c :
  (c < bands m)%nat ->
  chan c (zip_pixel f (build m e) (build m g)) = f (e c) (g c).
Proof.
  intros Hc. destruct m; destruct c as [|[|[|[|c]]]]; cbn in Hc |- *;
    try reflexivity; lia.
Qed.

(** One pixel of the effect, seen through band [c]. *)
Lemma effect_pixel_band im c x y :
  (c < bands (mode im))%nat ->
  PL (chan c (zip_pixel (blend_interpolate 0.5)
                (filter3x3_pixel im EMBOSS x y) (filter3x3_pixel im FIND_EDGES x y)))
  = zip_pixel (blend_interpolate 0.5)
      (filter3x3_pixel (getchannel im c) EMBOSS x y)
      (filter3x3_pixel (getchannel im c) FIND_EDGES x y).
Proof.
  intros Hc. unfold filter3x3_pixel.
  change (height (getchannel im c)) with (height im).
  change (width (getchannel im c)) with (width im).
  destruct (interior (height im) y && interior (width im) x).
  - rewrite chan_zip_build by exact Hc. cbn [getchannel mode build zip_pixel].
    now rewrite !filter3x3_band_getchannel.
  - rewrite px_at_getchannel. cbn [zip_pixel].
    now rewrite chan_zip_diag by reflexivity.
Qed.

Lemma effect_band im c :
  (c < bands (mode im))%nat ->
  exists out plane,
    create_3d_effect im = Ok out
    /\ blend (filter (getchannel im c) EMBOSS) (filter (getchannel im c) FIND_EDGES) 0.5
       = Ok plane
    /\ getchannel out c = plane.
Proof.
  intros Hc. eexists. eexists. split; [apply create_3d_effect_eq|].
  split.
  - rewrite blend_matching; try reflexivity.
    + now rewrite !mode_filter.
    + now rewrite !size_filter.
  - rewrite mode_filter, size_filter.
    unfold getchannel at 1. cbn [size data mode]. f_equal.
    unfold filter.
    change (height (getchannel im c)) with (height im).
    change (width (getchannel im c)) with (width im).
    destruct (Nat.ltb (width im) 3 || Nat.ltb (height im) 3).
    + cbn [getchannel data]. rewrite !zipWith_diag, !map_map2.
      apply map_ext. intros row. apply map_ext. intros p.
      cbn [zip_pixel]. now rewrite chan_zip_diag by reflexivity.
    + cbn [data]. rewrite !zipWith_tabulate, map_tabulate.
      apply tabulate_ext. intros x y _ _. now apply effect_pixel_band.
Qed.

(** C10: [create_3d_effect] filters every band on its own, alpha among
    them: band [c] of the result is the 0.5/0.5 blend of the embossed and
    the edge-filtered band [c] of the input.  The input's alpha is not
    kept: the centre of an opaque 3x3 image comes out with alpha 64. *)
Theorem C10_3d_effect_filters_alpha image c :
  (c < bands (mode image))%nat ->
  (exists out plane,
      create_3d_effect image = Ok out
      /\ blend (filter (getchannel image c) EMBOSS)
           (filter (getchannel image c) FIND_EDGES) 0.5 = Ok plane
      /\ getchannel out c = plane)
  /\ (exists rgba out,
         mode rgba = RGBA /\ wfb rgba = true
         /\ create_3d_effect rgba = Ok out
         /\ px_at rgba 1 1 = PRGBA 10 20 30 255
         /\ px_at out 1 1 = PRGBA 64 64 64 64
         /\ getchannel out 3 <> getchannel rgba 3).
Proof.
  intros Hc. split; [now apply effect_band|].
  exists opaque3. eexists. split; [reflexivity|]. split; [reflexivity|].
  split; [apply create_3d_effect_eq|].
  split; [reflexivity|]. split; [reflexivity|]. vm_compute. discriminate.
Qed.

Lemma C10_3d_effect_filters_alpha_witness :
  (exists out plane,
      create_3d_effect opaque3 = Ok out
      /\ blend (filter (getchannel opaque3 3) EMBOSS)
           (filter (getchannel opaque3 3) FIND_EDGES) 0.5 = Ok plane
      /\ getchannel out 3 = plane)
  /\ (exists rgba out,
         mode rgba = RGBA /\ wfb rgba = true
         /\ create_3d_effect rgba = Ok out
         /\ px_at rgba 1 1 = PRGBA 10 20 30 255
         /\ px_at out 1 1 = PRGBA 64 64 64 64
         /\ getchannel out 3 <> getchannel rgba 3).
Proof. apply (C10_3d_effect_filters_alpha opaque3 3). vm_compute. reflexivity. Defined.

(** ** The pipeline and the sizes of its stages *)

Section Pipeline.

Context {F : FloatFilters}.

Lemma size_remove_white_background image :
  size (remove_white_background image) = size image.
Proof. now rewrite remove_white_background_pixelwise. Qed.

Lemma size_create_depth_map image : size (create_depth_map image) = size image.
Proof.
  unfold create_depth_map, filter_GaussianBlur, grayscale.
  destruct (Qeq_bool 5 0); cbn [size]; apply size_convert.
Qed.

(** C4: [full_2d_to_3d_pipeline] never raises and returns
    [(cleaned, depth, final_3d)] where [cleaned] is the keyed input,
    [enhanced] the colour-enhanced [cleaned], [depth] the depth map of
    [enhanced] and [final_3d] the 3D effect of [enhanced]. *)
Theorem C4_pipeline_is_the_composition image :
  exists enhanced final_3d,
    enhance_colors (remove_white_background image) = Ok enhanced
    /\ create_3d_effect enhanced = Ok final_3d
    /\ full_2d_to_3d_pipeline image
       = Ok (remove_white_background image, create_depth_map enhanced, final_3d).
Proof.
  eexists. eexists.
  split; [apply enhance_colors_eq|]. split; [apply create_3d_effect_eq|].
  unfold full_2d_to_3d_pipeline.
  rewrite enhance_colors_eq. cbn [bind].
  rewrite create_3d_effect_eq. reflexivity.
Qed.

End Pipeline.

(** ** The before/after slider *)

Section Slider.
Context {F : FloatFilters}.

Lemma resize_Ok im sz R :
  resize im sz = Ok R -> size R = sz /\ mode R = mode im.
Proof.
  unfold resize. destruct (size_eqb (size im) sz) eqn:E.
  - intros [= <-]. split; [now apply size_eqb_eq|reflexivity].
  - destruct (Nat.ltb (fst sz) 1 || Nat.ltb (snd sz) 1); [discriminate|].
    intros [= <-]. split; reflexivity.
Qed.

(** When [Image.resize] raises, so does the comparison. *)
Lemma slider_resize_raises before after sp e :
  resize after (size before) = Raise e ->
  create_before_after_comparison before after sp = Raise e.
Proof. intros Hr. unfold create_before_after_comparison. now rewrite Hr. Qed.

Lemma slider_negative before after sp R :
  resize after (size before) = Ok R -> sp < 0 ->
  create_before_after_comparison before after sp
  = Raise (ValueError "Coordinate 'right' is less than 'left'").
Proof.
  intros Hr Hsp. unfold create_before_after_comparison. rewrite Hr. cbn [bind].
  destruct (size before) as [w h]. unfold crop.
  destruct (Z.ltb_spec sp 0); [reflexivity|lia].
Qed.

Lemma slider_bomb before after sp R :
  resize after (size before) = Ok R -> 0 <= sp ->
  2 * MAX_IMAGE_PIXELS < Z.max 1 sp * Z.max 1 (Z.of_nat (height before)) ->
  exists msg,
    create_before_after_comparison before after sp = Raise (DecompressionBombError msg).
Proof.
  intros Hr Hsp Hbig. unfold create_before_after_comparison, height in *.
  rewrite Hr. cbn [bind]. destruct (size before) as [w h]. cbn [snd] in Hbig.
  unfold crop, _decompression_bomb_check.
  destruct (Z.ltb_spec sp 0); [lia|].
  destruct (Z.ltb_spec (Z.of_nat h) 0); [lia|].
  cbn [fst snd]. rewrite !Z.sub_0_r, !Z.abs_eq by lia.
  destruct (Z.ltb_spec (2 * MAX_IMAGE_PIXELS) (Z.max 1 sp * Z.max 1 (Z.of_nat h)));
    [|lia].
  eexists. reflexivity.
Qed.

Lemma slider_mismatch before after sp R :
  resize after (size before) = Ok R -> 0 <= sp ->
  Z.max 1 sp * Z.max 1 (Z.of_nat (height before)) <= 2 * MAX_IMAGE_PIXELS ->
  Z.to_nat sp <> width before ->
  create_before_after_comparison before after sp
  = Raise (ValueError "images do not match").
Proof.
  intros Hr Hsp Hsmall Hne. unfold create_before_after_comparison, width, height in *.
  rewrite Hr. cbn [bind]. destruct (size before) as [w h]. cbn [fst snd] in Hne, Hsmall.
  unfold crop, _decompression_bomb_check.
  destruct (Z.ltb_spec sp 0); [lia|].
  destruct (Z.ltb_spec (Z.of_nat h) 0); [lia|].
  cbn [fst snd]. rewrite !Z.sub_0_r, !Z.abs_eq by lia.
  destruct (Z.ltb_spec (2 * MAX_IMAGE_PIXELS) (Z.max 1 sp * Z.max 1 (Z.of_nat h)));
    [lia|].
  cbn [bind]. unfold paste at 2. cbn [bind]. unfold rectangle.
  destruct (Z.ltb_spec sp 0); [lia|].
  destruct (Z.ltb_spec (Z.of_nat h) 0); [lia|].
  cbn [bind]. unfold paste. cbn [size new bind].
  unfold size_eqb. cbn [fst snd].
  destruct (Nat.eqb_spec w (Z.to_nat sp)) as [E|E]; [congruence|]. reflexivity.
Qed.

Lemma px_at_tabulate m sz w h f x y :
  (x < w)%nat -> (y < h)%nat -> px_at (mkImage m sz (tabulate w h f)) x y = f x y.
Proof. intros Hx Hy. unfold px_at. cbn [data]. now apply nth_tabulate. Qed.

Lemma convert_pixel_RGB_zero m : convert_pixel RGB (zero_pixel m) = zero_pixel RGB.
Proof. destruct m; reflexivity. Qed.

Lemma px_at_convert_RGB im x y :
  px_at (convert im RGB) x y
  = if Mode_eqb RGB (mode im) then px_at im x y else convert_pixel RGB (px_at im x y).
Proof.
  unfold convert. destruct (Mode_eqb RGB (mode im)); [reflexivity|].
  unfold px_at. cbn [data mode].
  change (@nil pixel) with (map (convert_pixel RGB) []) at 1.
  rewrite (map_nth (map (convert_pixel RGB))).
  rewrite <- (convert_pixel_RGB_zero (mode im)).
  apply (map_nth (convert_pixel RGB)).
Qed.

Lemma px_in_inside im x y :
  (x < width im)%nat -> (y < height im)%nat ->
  px_in im (0 + Z.of_nat x) (0 + Z.of_nat y) = px_at im x y.
Proof.
  intros Hx Hy. unfold px_in. rewrite !Z.add_0_l, !Nat2Z.id.
  destruct (Z.leb_spec 0 (Z.of_nat x)); [|lia].
  destruct (Z.ltb_spec (Z.of_nat x) (Z.of_nat (width im))); [|lia].
  destruct (Z.leb_spec 0 (Z.of_nat y)); [|lia].
  destruct (Z.ltb_spec (Z.of_nat y) (Z.of_nat (height im))); [|lia].
  reflexivity.
Qed.

(** The image the comparison returns at the full width. *)
Lemma slider_full before after R :
  resize after (size before) = Ok R ->
  Z.max 1 (Z.of_nat (width before)) * Z.max 1 (Z.of_nat (height before))
  <= 2 * MAX_IMAGE_PIXELS ->
  create_before_after_comparison before after (Z.of_nat (width before))
  = Ok (mkImage RGB (size before)
          (tabulate (width before) (height before)
             (fun x y =>
                zip_pixel (BLEND 255)
                  (px_at (convert before RGB) x y)
                  (px_at (convert R RGB) x y)))).
Proof.
  intros Hr Hsmall. destruct (resize_Ok _ _ _ Hr) as [HsR _].
  unfold create_before_after_comparison, width, height in *.
  rewrite Hr. cbn [bind].
  destruct (size before) as [w h] eqn:Es. cbn [fst snd] in *.
  unfold crop, _decompression_bomb_check.
  destruct (Z.ltb_spec (Z.of_nat w) 0); [lia|].
  destruct (Z.ltb_spec (Z.of_nat h) 0); [lia|].
  cbn [fst snd]. rewrite !Z.sub_0_r, !Z.abs_eq by lia.
  destruct (Z.ltb_spec (2 * MAX_IMAGE_PIXELS)
              (Z.max 1 (Z.of_nat w) * Z.max 1 (Z.of_nat h))); [lia|].
  cbn [bind]. unfold paste at 2. cbn [bind]. unfold rectangle.
  destruct (Z.ltb_spec (Z.of_nat w) 0); [lia|].
  destruct (Z.ltb_spec (Z.of_nat h) 0); [lia|].
  cbn [bind]. unfold paste. cbn [size new bind mode].
  rewrite !Nat2Z.id, size_eqb_refl. cbn [negb bind].
  unfold width, height. cbn [size fst snd]. rewrite Es. cbn [fst snd].
  f_equal. f_equal. apply tabulate_ext. intros x y Hx Hy.
  rewrite !Nat.sub_0_r, !Nat.add_0_l.
  destruct (Nat.ltb_spec x w); [|lia]. destruct (Nat.ltb_spec y h); [|lia].
  cbn [Nat.leb andb].
  unfold mask_value. cbn [mode]. rewrite !px_at_tabulate by assumption.
  destruct (Nat.ltb_spec x w); [|lia]. destruct (Nat.ltb_spec y h); [|lia].
  cbn [Nat.leb andb].
  destruct (Z.leb_spec 0 (Z.of_nat x)); [|lia].
  destruct (Z.leb_spec (Z.of_nat x) (Z.of_nat w)); [|lia].
  destruct (Z.leb_spec 0 (Z.of_nat y)); [|lia].
  destruct (Z.leb_spec (Z.of_nat y) (Z.of_nat h)); [|lia].
  cbn [andb ink chan]. change (CLIP8 255) with 255.
  f_equal; [now rewrite !Nat.sub_0_r|].
  rewrite !px_at_convert_RGB. cbn [mode].
  rewrite px_at_tabulate by assumption.
  rewrite px_in_inside; [reflexivity| |]; unfold width, height;
    rewrite HsR; assumption.
Qed.

(** The call returns an image at one split position only, the full width,
    and only for a crop box within the limit. *)
Lemma slider_returns_at_width before after sp out :
  create_before_after_comparison before after sp = Ok out ->
  exists R,
    resize after (size before) = Ok R
    /\ sp = Z.of_nat (width before)
    /\ Z.max 1 (Z.of_nat (width before)) * Z.max 1 (Z.of_nat (height before))
       <= 2 * MAX_IMAGE_PIXELS.
Proof.
  intros E. destruct (resize after (size before)) as [R|e] eqn:Hr;
    [|rewrite (slider_resize_raises _ _ _ _ Hr) in E; discriminate E].
  exists R. split; [reflexivity|].
  destruct (Z.lt_ge_cases sp 0) as [Hneg|Hpos];
    [rewrite (slider_negative _ _ _ _ Hr Hneg) in E; discriminate E|].
  destruct (Z.lt_ge_cases (2 * MAX_IMAGE_PIXELS)
              (Z.max 1 sp * Z.max 1 (Z.of_nat (height before)))) as [Hbig|Hsmall].
  { destruct (slider_bomb _ _ _ _ Hr Hpos Hbig) as [msg Hm].
    rewrite Hm in E. discriminate E. }
  destruct (Nat.eq_dec (Z.to_nat sp) (width before)) as [Hw|Hw].
  - rewrite <- Hw in *. rewrite Z2Nat.id in * by exact Hpos. now split.
  - rewrite (slider_mismatch _ _ _ _ Hr Hpos Hsmall Hw) in E. discriminate E.
Qed.

Lemma BLEND_255 a b : byteb b = true -> BLEND 255 a b = b.
Proof.
  rewrite byteb_spec. intros Hb. unfold BLEND, DIV255.
  rewrite Z.sub_diag, Z.mul_0_r, Z.add_0_l.
  rewrite !Z.shiftr_div_pow2 by lia. change (2 ^ 8) with 256.
  Z.div_mod_to_equations. lia.
Qed.

Lemma wfb_px_at im x y :
  wfb im = true -> (x < width im)%nat -> (y < height im)%nat ->
  pixel_okb (mode im) (px_at im x y) = true.
Proof.
  unfold wfb. rewrite andb_true_iff, Nat.eqb_eq, forallb_forall.
  intros [Hlen Hrows] Hx Hy. unfold px_at.
  assert (Hin : In (nth y (data im) []) (data im))
    by (apply nth_In; rewrite Hlen; exact Hy).
  specialize (Hrows _ Hin). rewrite andb_true_iff, Nat.eqb_eq, forallb_forall in Hrows.
  destruct Hrows as [Hw Hpx]. apply Hpx, nth_In. rewrite Hw. exact Hx.
Qed.

Lemma pixel_ok_as_RGB m p :
  pixel_okb m p = true ->
  (if Mode_eqb RGB m then p else convert_pixel RGB p) = convert_pixel RGB p
  /\ pixel_okb RGB (convert_pixel RGB p) = true.
Proof.
  destruct m, p; cbn; intros Hp; try discriminate Hp; split;
    try reflexivity; try exact Hp.
  - now rewrite Hp.
  - apply andb_true_iff in Hp. destruct Hp as [Hl _]. now rewrite Hl.
  - apply andb_true_iff in Hp. exact (proj1 Hp).
Qed.

Lemma zip_BLEND_255 p q :
  pixel_okb RGB p = true -> pixel_okb RGB q = true -> zip_pixel (BLEND 255) p q = q.
Proof.
  destruct p, q; cbn [zip_pixel pixel_okb]; intros Hp Hq;
    try discriminate Hp; try discriminate Hq.
  apply andb_true_iff in Hq. destruct Hq as [Hq Hb].
  apply andb_true_iff in Hq. destruct Hq as [Hr Hg].
  now rewrite !BLEND_255.
Qed.

Lemma alpha_of_zip f p q : alpha_of (zip_pixel f p q) = None <-> alpha_of p = None.
Proof. destruct p, q; cbn; split; intros E; try reflexivity; discriminate E. Qed.

(** What a returned image shows: the pixels of the resized [after_img],
    as RGB. *)
Lemma slider_pixels before R x y :
  wfb before = true -> wfb R = true -> size R = size before ->
  (x < width before)%nat -> (y < height before)%nat ->
  zip_pixel (BLEND 255) (px_at (convert before RGB) x y) (px_at (convert R RGB) x y)
  = convert_pixel RGB (px_at R x y).
Proof.
  intros Hb Ha Hs Hx Hy. rewrite !px_at_convert_RGB.
  pose proof (wfb_px_at before x y Hb Hx Hy) as Pb.
  assert (Pa : pixel_okb (mode R) (px_at R x y) = true).
  { apply wfb_px_at; [exact Ha| |]; unfold width, height; rewrite Hs; assumption. }
  destruct (pixel_ok_as_RGB _ _ Pb) as [-> Pb'].
  destruct (pixel_ok_as_RGB _ _ Pa) as [-> Pa'].
  now apply zip_BLEND_255.
Qed.

(** C2 (amended): a negative split and a split beyond the width of
    [before] both end in an exception and return no image: Pillow's
    [ValueError], or its [DecompressionBombError] when the box to crop,
    [split_x] by height, has more than 178956970 pixels. *)
Theorem C2_slider_rejects_out_of_range_split before after split_x :
  split_x < 0 \/ Z.of_nat (width before) < split_x ->
  exists e,
    create_before_after_comparison before after split_x = Raise e
    /\ (exc_type e = "ValueError"%string
        \/ (exc_type e = "DecompressionBombError"%string
            /\ 178956970 < Z.max 1 split_x * Z.max 1 (Z.of_nat (height before)))).
Proof.
  intros Hout.
  destruct (resize after (size before)) as [R|e] eqn:Hr.
  - destruct (Z.lt_ge_cases split_x 0) as [Hneg|Hpos].
    + eexists. split; [now apply (slider_negative _ _ _ R)|]. now left.
    + destruct (Z.lt_ge_cases (2 * MAX_IMAGE_PIXELS)
                  (Z.max 1 split_x * Z.max 1 (Z.of_nat (height before))))
        as [Hbig|Hsmall].
      * destruct (slider_bomb _ _ _ _ Hr Hpos Hbig) as [msg Hm].
        eexists. split; [exact Hm|]. right. split; [reflexivity|exact Hbig].
      * eexists. split; [apply (slider_mismatch _ _ _ R); try assumption; lia|].
        now left.
  - exists e. split; [now apply slider_resize_raises|]. left.
    unfold resize in Hr. destruct (size_eqb (size after) (size before)); [discriminate|].
    destruct (Nat.ltb (fst (size before)) 1 || Nat.ltb (snd (size before)) 1);
      [|discriminate].
    now injection Hr as <-.
Qed.

(** C8: every stage keeps the width and height of its input.  The slider
    returns an image of the size of [before], whatever the size of
    [after]: it does return one at the full width when [after] can be
    resized ([before] has no empty side, or [after] already has its size)
    and [before] has at most 178956970 pixels, and every image it returns
    has the size of [before]. *)
Theorem C8_stages_keep_dimensions image before after :
  size (remove_white_background image) = size image
  /\ (exists out, enhance_colors image = Ok out /\ size out = size image)
  /\ size (create_depth_map image) = size image
  /\ (exists out, create_3d_effect image = Ok out /\ size out = size image)
  /\ (size after = size before \/ (0 < width before /\ 0 < height before)%nat ->
      Z.max 1 (Z.of_nat (width before)) * Z.max 1 (Z.of_nat (height before))
      <= 178956970 ->
      exists out,
        create_before_after_comparison before after (Z.of_nat (width before)) = Ok out
        /\ size out = size before)
  /\ (forall split_x out,
         create_before_after_comparison before after split_x = Ok out ->
         size out = size before).
Proof.
  split; [apply size_remove_white_background|].
  split; [eexists; split; [apply enhance_colors_eq|reflexivity]|].
  split; [apply size_create_depth_map|].
  split; [eexists; split; [apply create_3d_effect_eq|reflexivity]|].
  split.
  - intros Hrs Hsmall.
    assert (Hr : exists R, resize after (size before) = Ok R).
    { unfold resize. destruct (size_eqb (size after) (size before)) eqn:E;
        [now eexists|].
      destruct Hrs as [Hs|[Hw Hh]];
        [rewrite Hs, size_eqb_refl in E; discriminate E|].
      unfold width, height in Hw, Hh.
      destruct (Nat.ltb_spec (fst (size before)) 1); [lia|].
      destruct (Nat.ltb_spec (snd (size before)) 1); [lia|].
      now eexists. }
    destruct Hr as [R Hr]. eexists.
    split; [apply (slider_full _ _ R Hr); exact Hsmall|reflexivity].
  - intros split_x out E.
    destruct (slider_returns_at_width _ _ _ _ E) as [R [Hr [-> Hsmall]]].
    rewrite (slider_full _ _ R Hr Hsmall) in E. now injection E as <-.
Qed.

(** X25: an image returned by the comparison is a 3-channel RGB image
    whose pixels carry no alpha, so it is never the RGBA [before] it was
    given. *)
Theorem X25_slider_result_is_RGB before after split_x out :
  wfb before = true ->
  create_before_after_comparison before after split_x = Ok out ->
  mode out = RGB
  /\ (forall x y, (x < width before)%nat -> (y < height before)%nat ->
                  alpha_of (px_at out x y) = None)
  /\ (mode before = RGBA -> out <> before).
Proof.
  intros Hb E.
  destruct (slider_returns_at_width _ _ _ _ E) as [R [Hr [-> Hsmall]]].
  rewrite (slider_full _ _ R Hr Hsmall) in E. injection E as <-.
  split; [reflexivity|]. split.
  - intros x y Hx Hy.
    rewrite px_at_tabulate by assumption. apply alpha_of_zip.
    rewrite px_at_convert_RGB.
    destruct (pixel_ok_as_RGB _ _ (wfb_px_at before x y Hb Hx Hy)) as [-> _].
    now destruct (px_at before x y).
  - intros Hm Heq. rewrite <- Heq in Hm. discriminate Hm.
Qed.

End Slider.

(** ** The slider on concrete images *)

(** C1, where the code goes wrong: on the 10x10 red and blue images the
    call at split 0 raises instead of returning [before], and the call at
    split 5 raises instead of returning a red and blue composite.  The
    mask has the size of the image, (10, 10), while the region cropped
    from [after_img] has the size (split, 10), and [Image.paste] refuses
    the pair. *)
Lemma C1_slider_split_raises :
  @create_before_after_comparison plain_filters red10 blue10 0
  = Raise (ValueError "images do not match")
  /\ @create_before_after_comparison plain_filters red10 blue10 0 <> Ok red10
  /\ @create_before_after_comparison plain_filters red10 blue10 5
     = Raise (ValueError "images do not match")
  /\ @create_before_after_comparison plain_filters red10 blue10 10 = Ok blue10.
Proof.
  split; [reflexivity|]. split; [discriminate|]. split; reflexivity.
Qed.

(** C2 as stated fails: the exception raised at split [-1] is a
    [ValueError], not an [InvalidSplit] or [InvalidParameter]. *)
Lemma C2_slider_error_is_not_InvalidSplit :
  ~ (exists e,
        @create_before_after_comparison plain_filters red10 blue10 (-1) = Raise e
        /\ (exc_type e = "InvalidSplit"%string \/ exc_type e = "InvalidParameter"%string)).
Proof.
  intros [e [E [T|T]]]; vm_compute in E; injection E as <-; discriminate T.
Qed.

Lemma C2_slider_rejects_out_of_range_split_witness :
  exists e,
    @create_before_after_comparison plain_filters red10 blue10 20000000 = Raise e
    /\ (exc_type e = "ValueError"%string
        \/ (exc_type e = "DecompressionBombError"%string
            /\ 178956970 < Z.max 1 20000000 * Z.max 1 (Z.of_nat (height red10)))).
Proof.
  apply (@C2_slider_rejects_out_of_range_split plain_filters red10 blue10 20000000).
  right. vm_compute. reflexivity.
Defined.

Lemma C8_stages_keep_dimensions_witness :
  exists out,
    @create_before_after_comparison plain_filters red10 glass2 (Z.of_nat (width red10))
    = Ok out
    /\ size out = size red10.
Proof.
  apply (proj1 (proj2 (proj2 (proj2 (proj2
           (@C8_stages_keep_dimensions plain_filters opaque3 red10 glass2)))))).
  - right. vm_compute. lia.
  - vm_compute. discriminate.
Defined.

(** C9, where the code goes wrong: with an RGBA [before], the call at
    split 0 raises instead of returning [before] with its alpha dropped,
    for the same reason as above. *)
Lemma C9_slider_split_zero_raises :
  @create_before_after_comparison plain_filters glass2 glass2 0
  = Raise (ValueError "images do not match")
  /\ @create_before_after_comparison plain_filters glass2 glass2 0
     <> Ok (convert glass2 RGB).
Proof. split; [reflexivity|discriminate]. Qed.

Lemma X25_slider_result_is_RGB_witness :
  mode (convert glass2 RGB) = RGB
  /\ (forall x y, (x < width glass2)%nat -> (y < height glass2)%nat ->
                  alpha_of (px_at (convert glass2 RGB) x y) = None)
  /\ (mode glass2 = RGBA -> convert glass2 RGB <> glass2).
Proof.
  apply (@X25_slider_result_is_RGB plain_filters glass2 glass2 2 (convert glass2 RGB));
    reflexivity.
Defined.

(** * Further properties of the stages *)

(** ** Rasters of well-formed images *)

Lemma wfb_height im : wfb im = true -> length (data im) = height im.
Proof. unfold wfb. rewrite andb_true_iff, Nat.eqb_eq. now intros [E _]. Qed.

Lemma wfb_row_length im y :
  wfb im = true -> (y < height im)%nat -> length (nth y (data im) []) = width im.
Proof.
  intros Hwf Hy. pose proof (wfb_height im Hwf) as Hlen.
  unfold wfb in Hwf. rewrite andb_true_iff, forallb_forall in Hwf.
  destruct Hwf as [_ Hrows].
  assert (Hin : In (nth y (data im) []) (data im))
    by (apply nth_In; rewrite Hlen; exact Hy).
  specialize (Hrows _ Hin). rewrite andb_true_iff, Nat.eqb_eq in Hrows.
  exact (proj1 Hrows).
Qed.

(** Reading a pixel of a raster mapped through [k]. *)
Lemma px_at_map_in im m sz (k : pixel -> pixel) x y :
  wfb im = true -> (x < width im)%nat -> (y < height im)%nat ->
  px_at (mkImage m sz (map (map k) (data im))) x y = k (px_at im x y).
Proof.
  intros Hwf Hx Hy. unfold px_at. cbn [data mode].
  change (@nil pixel) with (map k []) at 1.
  rewrite (map_nth (map k)).
  rewrite (nth_indep _ (zero_pixel m) (k (zero_pixel (mode im))))
    by (rewrite length_map, wfb_row_length; assumption).
  apply (map_nth k).
Qed.

Lemma px_at_map_zero m m' sz sz' (k : pixel -> pixel) d x y :
  k (zero_pixel m) = zero_pixel m' ->
  px_at (mkImage m' sz (map (map k) d)) x y = k (px_at (mkImage m sz' d) x y).
Proof.
  intros Hk. unfold px_at. cbn [data mode].
  change (@nil pixel) with (map k []) at 1.
  rewrite (map_nth (map k)), <- Hk. apply (map_nth k).
Qed.

Lemma tabulate_length {A} w h (f : nat -> nat -> A) : length (tabulate w h f) = h.
Proof. unfold tabulate. now rewrite length_map, length_seq. Qed.

Lemma tabulate_In_row {A} w h (f : nat -> nat -> A) row :
  In row (tabulate w h f) ->
  exists y, (y < h)%nat /\ row = map (fun x => f x y) (seq 0 w).
Proof.
  unfold tabulate. rewrite in_map_iff. intros [y [E Hy]].
  apply in_seq in Hy. exists y. split; [lia|now symmetry].
Qed.

(** A raster filled pixel by pixel with well-formed pixels is well formed. *)
Lemma wfb_tabulate m w h f :
  (forall x y, (x < w)%nat -> (y < h)%nat -> pixel_okb m (f x y) = true) ->
  wfb (mkImage m (w, h) (tabulate w h f)) = true.
Proof.
  intros Hf. unfold wfb, height, width. cbn [data size mode fst snd].
  rewrite tabulate_length, Nat.eqb_refl. cbn [andb].
  apply forallb_forall. intros row Hrow.
  apply tabulate_In_row in Hrow. destruct Hrow as [y [Hy ->]].
  rewrite length_map, length_seq, Nat.eqb_refl. cbn [andb].
  apply forallb_forall. intros p Hp. apply in_map_iff in Hp.
  destruct Hp as [x [<- Hx]]. apply in_seq in Hx. apply Hf; lia.
Qed.

(** Mapping well-formed pixels to well-formed pixels keeps an image well
    formed. *)
Lemma wfb_map im m (k : pixel -> pixel) :
  wfb im = true ->
  (forall p, pixel_okb (mode im) p = true -> pixel_okb m (k p) = true) ->
  wfb (mkImage m (size im) (map (map k) (data im))) = true.
Proof.
  intros Hwf Hk. pose proof (wfb_height im Hwf) as Hlen.
  unfold wfb in *. unfold height, width in *. cbn [data size mode].
  rewrite length_map, Hlen, Nat.eqb_refl. cbn [andb].
  rewrite andb_true_iff in Hwf. destruct Hwf as [_ Hrows].
  rewrite forallb_forall in Hrows. apply forallb_forall.
  intros row' Hrow'. apply in_map_iff in Hrow'. destruct Hrow' as [row [<- Hrow]].
  specialize (Hrows row Hrow). rewrite andb_true_iff in Hrows.
  destruct Hrows as [Hw Hpx]. rewrite length_map, Hw. cbn [andb].
  rewrite forallb_forall in Hpx. apply forallb_forall.
  intros p' Hp'. apply in_map_iff in Hp'. destruct Hp' as [p [<- Hp]].
  apply Hk, Hpx, Hp.
Qed.

(** The raster of a well-formed image is the table of its pixels. *)
Lemma wfb_data_tabulate im :
  wfb im = true -> data im = tabulate (width im) (height im) (px_at im).
Proof.
  intros Hwf. pose proof (wfb_height im Hwf) as Hlen.
  apply (nth_ext _ _ [] []).
  - now rewrite tabulate_length.
  - intros y Hy. rewrite Hlen in Hy.
    apply (nth_ext _ _ (zero_pixel (mode im)) (zero_pixel (mode im))).
    + rewrite wfb_row_length by assumption. unfold tabulate.
      rewrite (nth_indep _ [] (map (fun x => px_at im x 0%nat) (seq 0 (width im))))
        by (now rewrite length_map, length_seq).
      rewrite (map_nth (fun y0 => map (fun x => px_at im x y0) (seq 0 (width im)))
                 (seq 0 (height im)) 0%nat y).
      now rewrite length_map, length_seq.
    + intros x Hx. rewrite wfb_row_length in Hx by assumption.
      now rewrite nth_tabulate.
Qed.

(** ** Background keying, continued *)

Lemma keyed_pixel_ok m p :
  pixel_okb m p = true ->
  pixel_okb RGBA (pixel_of_rgba (BackgroundKeyer_pixel 240 (np.rgba_of p))) = true.
Proof.
  intros Hp.
  assert (Hq : pixel_okb RGBA (pixel_of_rgba (np.rgba_of p)) = true).
  { destruct m, p; try discriminate Hp; cbn in Hp |- *.
    - now rewrite Hp.
    - apply andb_true_iff in Hp. destruct Hp as [Hl Ha]. now rewrite Hl, Ha.
    - now rewrite Hp.
    - exact Hp. }
  destruct (np.rgba_of p) as [[[r g] b] a]. unfold BackgroundKeyer_pixel.
  destruct ((240 <? r) && (240 <? g) && (240 <? b)); [reflexivity|exact Hq].
Qed.

(** X1: keying a well-formed image of any mode gives a well-formed RGBA
    image. *)
Theorem X1_keyer_returns_well_formed_RGBA image :
  wfb image = true ->
  mode (remove_white_background image) = RGBA
  /\ wfb (remove_white_background image) = true.
Proof.
  intros Hwf. rewrite remove_white_background_pixelwise. split; [reflexivity|].
  apply wfb_map; [exact Hwf|]. intros p Hp. exact (keyed_pixel_ok _ _ Hp).
Qed.

Lemma X1_keyer_returns_well_formed_RGBA_witness :
  mode (remove_white_background glass2) = RGBA
  /\ wfb (remove_white_background glass2) = true.
Proof. apply (X1_keyer_returns_well_formed_RGBA glass2). reflexivity. Defined.

Lemma nth_nth_cases {A} (ll : list (list A)) x y z :
  nth x (nth y ll []) z = z
  \/ exists row, In row ll /\ In (nth x (nth y ll []) z) row.
Proof.
  destruct (nth_in_or_default y ll []) as [Hrow|Hrow].
  - destruct (nth_in_or_default x (nth y ll []) z) as [Hp|Hp].
    + right. exists (nth y ll []). split; assumption.
    + left. exact Hp.
  - left. rewrite Hrow. now destruct x.
Qed.

(** X2: no pixel of the keyed image is near-white, wherever it is read:
    a pixel whose red, green and blue all exceed 240 never survives. *)
Theorem X2_keyer_leaves_no_near_white_pixel image x y :
  exists r g b a,
    px_at (remove_white_background image) x y = PRGBA r g b a
    /\ (240 <? r) && (240 <? g) && (240 <? b) = false.
Proof.
  rewrite remove_white_background_pixelwise. unfold px_at. cbn [data mode zero_pixel].
  destruct (nth_nth_cases
              (map (map (fun p => pixel_of_rgba (BackgroundKeyer_pixel 240 (np.rgba_of p))))
                 (data image)) x y (PRGBA 0 0 0 0)) as [->|[row [Hrow Hin]]].
  - exists 0, 0, 0, 0. split; reflexivity.
  - apply in_map_iff in Hrow. destruct Hrow as [row0 [<- _]].
    apply in_map_iff in Hin. destruct Hin as [p [<- _]].
    destruct (np.rgba_of p) as [[[r g] b] a]. unfold BackgroundKeyer_pixel.
    destruct ((240 <? r) && (240 <? g) && (240 <? b)) eqn:E.
    + exists 0, 0, 0, 0. split; reflexivity.
    + exists r, g, b, a. split; [reflexivity|exact E].
Qed.



(** ** Colour enhancement, continued *)

(** [enhance_colors] works pixel by pixel. *)
Lemma enhance_colors_pixelwise im :
  enhance_colors im
  = Ok (mkImage (mode im) (size im) (map (map (enhance_pixel (mode im))) (data im))).
Proof.
  rewrite enhance_colors_eq. do 2 f_equal.
  unfold Color_init, enhance_pixel, degenerate_pixel. cbn [degenerate].
  destruct (mode im) eqn:Em; cbn [has_alpha Mode_eqb];
    try apply zipWith_diag;
    unfold convert; rewrite Em; cbn [Mode_eqb mode data];
    now rewrite map_map2, zipWith_map_l.
Qed.

Lemma luma_grey l : luma l l l = l.
Proof.
  unfold luma, L24. rewrite Z.shiftr_div_pow2 by lia. change (2 ^ 16) with 65536.
  Z.div_mod_to_equations. lia.
Qed.

Lemma blend_extrapolate_formula d c :
  blend_extrapolate 1.5 d c = clamp255 ((3 * c - d) / 2).
Proof.
  unfold blend_extrapolate, blend_num, clamp255. cbn [Qnum Qden].
  destruct (Z.leb_spec (d * 10 + 15 * (c - d)) 0).
  - rewrite Z.max_l; [reflexivity|]. apply Z.min_le_iff. right.
    Z.div_mod_to_equations. lia.
  - destruct (Z.leb_spec (255 * 10) (d * 10 + 15 * (c - d))).
    + rewrite Z.min_l by (Z.div_mod_to_equations; lia). reflexivity.
    + rewrite Z.quot_div_nonneg by lia.
      rewrite Z.min_r by (Z.div_mod_to_equations; lia).
      rewrite Z.max_r by (Z.div_mod_to_equations; lia).
      Z.div_mod_to_equations. lia.
Qed.

Lemma clamp255_byte v : byteb (clamp255 v) = true.
Proof. apply byteb_spec. unfold clamp255. lia. Qed.

Lemma enhance_pixel_grey m p :
  pixel_okb m p = true -> greyb p = true -> enhance_pixel m p = p.
Proof.
  intros Hp Hg. unfold enhance_pixel, degenerate_pixel.
  destruct m, p; try discriminate Hp;
    cbn [zip_pixel convert_pixel has_alpha Mode_eqb pixel_okb greyb] in Hp, Hg |- *.
  - now rewrite blend_extrapolate_same.
  - apply andb_true_iff in Hp. destruct Hp as [Hl Ha].
    now rewrite !blend_extrapolate_same.
  - apply andb_true_iff in Hg. destruct Hg as [Hrg Hgb].
    apply Z.eqb_eq in Hrg, Hgb. subst g b. rewrite luma_grey.
    apply andb_true_iff in Hp. destruct Hp as [Hp _].
    apply andb_true_iff in Hp. destruct Hp as [Hr _].
    now rewrite !blend_extrapolate_same.
  - apply andb_true_iff in Hg. destruct Hg as [Hrg Hgb].
    apply Z.eqb_eq in Hrg, Hgb. subst g b. rewrite luma_grey.
    apply andb_true_iff in Hp. destruct Hp as [Hp Ha].
    apply andb_true_iff in Hp. destruct Hp as [Hp _].
    apply andb_true_iff in Hp. destruct Hp as [Hr _].
    now rewrite !blend_extrapolate_same.
Qed.

Lemma enhance_pixel_ok m p :
  pixel_okb m p = true -> pixel_okb m (enhance_pixel m p) = true.
Proof.
  intros Hp. unfold enhance_pixel, degenerate_pixel.
  destruct m, p; try discriminate Hp;
    cbn [zip_pixel convert_pixel has_alpha Mode_eqb pixel_okb] in Hp |- *;
    rewrite !blend_extrapolate_formula, !clamp255_byte; reflexivity.
Qed.

(** X4: a grey pixel (equal red, green and blue) of a well-formed image
    comes out of [enhance_colors] unchanged. *)
Theorem X4_enhance_colors_fixes_grey_pixels image x y :
  wfb image = true -> (x < width image)%nat -> (y < height image)%nat ->
  greyb (px_at image x y) = true ->
  exists out, enhance_colors image = Ok out /\ px_at out x y = px_at image x y.
Proof.
  intros Hwf Hx Hy Hg. eexists. split; [apply enhance_colors_pixelwise|].
  rewrite px_at_map_in by assumption.
  apply enhance_pixel_grey; [now apply wfb_px_at|exact Hg].
Qed.

Lemma X4_enhance_colors_fixes_grey_pixels_witness :
  exists out,
    enhance_colors (solid RGBA 3 3 (PRGBA 90 90 90 255)) = Ok out
    /\ px_at out 1 2 = px_at (solid RGBA 3 3 (PRGBA 90 90 90 255)) 1 2.
Proof.
  apply (X4_enhance_colors_fixes_grey_pixels (solid RGBA 3 3 (PRGBA 90 90 90 255)) 1 2);
    try reflexivity; vm_compute; lia.
Defined.

(** X5: a well-formed greyscale image, with or without alpha (mode [L] or
    [LA]), is returned by [enhance_colors] as it is. *)
Theorem X5_enhance_colors_is_identity_on_greyscale image :
  wfb image = true -> (bands (mode image) <= 2)%nat ->
  enhance_colors image = Ok image.
Proof.
  intros Hwf Hb. rewrite enhance_colors_pixelwise. f_equal.
  rewrite (map2_ext_Forall _ _ (fun p => p) _ (wfb_pixels image Hwf)).
  - rewrite (map_ext _ _ (fun row : list pixel => map_id row)), map_id.
    now destruct image.
  - intros p Hp. apply enhance_pixel_grey; [exact Hp|].
    destruct (mode image), p; try discriminate Hp; try reflexivity;
      cbn in Hb; lia.
Qed.

Lemma X5_enhance_colors_is_identity_on_greyscale_witness :
  enhance_colors (solid LA 2 2 (PLA 120 40)) = Ok (solid LA 2 2 (PLA 120 40)).
Proof.
  apply (X5_enhance_colors_is_identity_on_greyscale (solid LA 2 2 (PLA 120 40)));
    try reflexivity; vm_compute; lia.
Defined.




(** X6: on a colour pixel of a well-formed image [enhance_colors] moves
    each colour band [c] to [clamp ((3 * c - Y) / 2)], that is
    [Y + 1.5 * (c - Y)] rounded down and saturated to [0, 255], where [Y] is
    the integer luma of the pixel; alpha passes through. *)
Theorem X6_enhance_colors_saturation_formula image x y r g b :
  wfb image = true -> (x < width image)%nat -> (y < height image)%nat ->
  let sat c := clamp255 ((3 * c - luma r g b) / 2) in
  exists out,
    enhance_colors image = Ok out
    /\ (px_at image x y = PRGB r g b -> px_at out x y = PRGB (sat r) (sat g) (sat b))
    /\ (forall a, px_at image x y = PRGBA r g b a ->
                  px_at out x y = PRGBA (sat r) (sat g) (sat b) a).
Proof.
  intros Hwf Hx Hy sat. eexists. split; [apply enhance_colors_pixelwise|].
  rewrite px_at_map_in by assumption.
  pose proof (wfb_px_at image x y Hwf Hx Hy) as Hp.
  unfold enhance_pixel, degenerate_pixel. split.
  - intros E. rewrite E in Hp |- *.
    destruct (mode image); try discriminate Hp.
    cbn [zip_pixel convert_pixel has_alpha Mode_eqb].
    now rewrite !blend_extrapolate_formula.
  - intros a E. rewrite E in Hp |- *.
    destruct (mode image); try discriminate Hp.
    cbn [zip_pixel convert_pixel has_alpha Mode_eqb pixel_okb] in Hp |- *.
    apply andb_true_iff in Hp. destruct Hp as [_ Ha].
    now rewrite !blend_extrapolate_formula, <- (blend_extrapolate_formula a a),
      blend_extrapolate_same.
Qed.

Lemma X6_enhance_colors_saturation_formula_witness :
  let sat c := clamp255 ((3 * c - luma 200 100 50) / 2) in
  exists out,
    enhance_colors glass2 = Ok out
    /\ (px_at glass2 0 0 = PRGB 200 100 50 ->
        px_at out 0 0 = PRGB (sat 200) (sat 100) (sat 50))
    /\ (forall a, px_at glass2 0 0 = PRGBA 200 100 50 a ->
                  px_at out 0 0 = PRGBA (sat 200) (sat 100) (sat 50) a).
Proof.
  apply (X6_enhance_colors_saturation_formula glass2 0 0 200 100 50);
    try reflexivity; vm_compute; lia.
Defined.

(** X7: [enhance_colors] keeps a well-formed image well formed: every
    band of every pixel stays a byte, saturated and never wrapped. *)
Theorem X7_enhance_colors_keeps_well_formed image :
  wfb image = true ->
  exists out, enhance_colors image = Ok out /\ wfb out = true /\ mode out = mode image.
Proof.
  intros Hwf. eexists. split; [apply enhance_colors_pixelwise|].
  split; [|reflexivity].
  apply wfb_map; [exact Hwf|]. intros p Hp. now apply enhance_pixel_ok.
Qed.

Lemma X7_enhance_colors_keeps_well_formed_witness :
  exists out, enhance_colors glass2 = Ok out /\ wfb out = true /\ mode out = mode glass2.
Proof. apply (X7_enhance_colors_keeps_well_formed glass2). reflexivity. Defined.

(** ** The 3D effect, continued *)

Lemma blend_interpolate_half a b :
  byteb a = true -> byteb b = true -> blend_interpolate 0.5 a b = (a + b) / 2.
Proof.
  rewrite !byteb_spec. intros Ha Hb. unfold blend_interpolate, blend_num.
  cbn [Qnum Qden]. rewrite Z.quot_div_nonneg by lia.
  rewrite Z.mod_small by (Z.div_mod_to_equations; lia).
  Z.div_mod_to_equations. lia.
Qed.

Lemma blend_interpolate_same a : byteb a = true -> blend_interpolate 0.5 a a = a.
Proof.
  intros Ha. rewrite blend_interpolate_half by exact Ha.
  apply byteb_spec in Ha. Z.div_mod_to_equations. lia.
Qed.

Lemma zip_half_same m p :
  pixel_okb m p = true -> zip_pixel (blend_interpolate 0.5) p p = p.
Proof.
  intros Hp. destruct m, p; try discriminate Hp; cbn [zip_pixel pixel_okb] in Hp |- *;
    repeat (rewrite andb_true_iff in Hp; let H := fresh "H" in destruct Hp as [Hp H]);
    (rewrite !blend_interpolate_same by assumption); reflexivity.
Qed.

Lemma clip8_half_odd n : clip8_half (2 * n + 1) = clamp255 n.
Proof.
  unfold clip8_half, clamp255.
  destruct (Z.leb_spec (2 * n + 1) 0); [lia|].
  destruct (Z.leb_spec 510 (2 * n + 1)); [lia|].
  rewrite Z.quot_div_nonneg by lia.
  replace ((2 * n + 1) / 2) with n by (Z.div_mod_to_equations; lia). lia.
Qed.

(** The emboss kernel reduces to a difference with the lower-left
    neighbour, the edge kernel to eight times the pixel minus the sum of
    its eight neighbours. *)
Lemma emboss_band im x y c :
  filter3x3_band im EMBOSS x y c
  = emboss_value (chan c (px_at im x y)) (chan c (px_at im (x - 1) (y + 1))).
Proof.
  unfold filter3x3_band, KERNEL1x3, knth, emboss_value.
  cbn [EMBOSS kernel offset nth Nat.add]. rewrite clip8_half_odd. f_equal. lia.
Qed.

Lemma edges_band im x y c :
  filter3x3_band im FIND_EDGES x y c
  = edge_value (chan c (px_at im x y)) (ring_sum im c x y).
Proof.
  unfold filter3x3_band, KERNEL1x3, knth, edge_value, ring_sum.
  cbn [FIND_EDGES kernel offset nth Nat.add]. rewrite clip8_half_odd. f_equal. lia.
Qed.

Lemma emboss_value_byte v sw : byteb (emboss_value v sw) = true.
Proof. apply clamp255_byte. Qed.

Lemma edge_value_byte v ring : byteb (edge_value v ring) = true.
Proof. apply clamp255_byte. Qed.

(** The effect, pixel by pixel, on an image of at least 3x3 pixels. *)
Lemma create_3d_effect_large im :
  (3 <= width im)%nat -> (3 <= height im)%nat ->
  create_3d_effect im
  = Ok (mkImage (mode im) (size im)
          (tabulate (width im) (height im)
             (fun x y => zip_pixel (blend_interpolate 0.5)
                           (filter3x3_pixel im EMBOSS x y)
                           (filter3x3_pixel im FIND_EDGES x y)))).
Proof.
  intros Hw Hh. rewrite create_3d_effect_eq. unfold filter.
  destruct (Nat.ltb_spec (width im) 3); [lia|].
  destruct (Nat.ltb_spec (height im) 3); [lia|].
  cbn [orb data]. now rewrite zipWith_tabulate.
Qed.

Lemma create_3d_effect_small im :
  wfb im = true -> (width im < 3)%nat \/ (height im < 3)%nat ->
  create_3d_effect im = Ok im.
Proof.
  intros Hwf Hs. rewrite create_3d_effect_eq. unfold filter.
  replace (Nat.ltb (width im) 3 || Nat.ltb (height im) 3) with true.
  - rewrite zipWith_diag.
    rewrite (map2_ext_Forall _ _ (fun p => p) _ (wfb_pixels im Hwf))
      by (intros p Hp; exact (zip_half_same _ _ Hp)).
    rewrite (map_ext _ _ (fun row : list pixel => map_id row)), map_id.
    now destruct im.
  - symmetry. apply orb_true_iff.
    destruct Hs; [left|right]; now apply Nat.ltb_lt.
Qed.

(** X8: an image narrower or lower than the 3x3 kernel comes out of
    [create_3d_effect] unchanged. *)
Theorem X8_3d_effect_returns_small_images_unchanged image :
  wfb image = true -> (width image < 3)%nat \/ (height image < 3)%nat ->
  create_3d_effect image = Ok image.
Proof. exact (create_3d_effect_small image). Qed.

Lemma X8_3d_effect_returns_small_images_unchanged_witness :
  create_3d_effect glass2 = Ok glass2.
Proof.
  apply (X8_3d_effect_returns_small_images_unchanged glass2);
    [reflexivity|right; vm_compute; lia].
Defined.

(** X9: the rim of the image (first and last row, first and last column)
    comes out of [create_3d_effect] unchanged. *)
Theorem X9_3d_effect_keeps_the_border image x y :
  wfb image = true -> (x < width image)%nat -> (y < height image)%nat ->
  on_border (width image) (height image) x y = true ->
  exists out, create_3d_effect image = Ok out /\ px_at out x y = px_at image x y.
Proof.
  intros Hwf Hx Hy Hb.
  destruct (Nat.lt_ge_cases (width image) 3) as [Hw|Hw];
    [|destruct (Nat.lt_ge_cases (height image) 3) as [Hh|Hh]].
  - exists image. split; [apply create_3d_effect_small; auto|reflexivity].
  - exists image. split; [apply create_3d_effect_small; auto|reflexivity].
  - eexists. split; [now apply create_3d_effect_large|].
    rewrite px_at_tabulate by assumption. unfold filter3x3_pixel.
    unfold on_border in Hb. apply negb_true_iff in Hb. rewrite Hb.
    apply (zip_half_same (mode image)). now apply wfb_px_at.
Qed.

Lemma X9_3d_effect_keeps_the_border_witness :
  exists out, create_3d_effect opaque3 = Ok out /\ px_at out 2 1 = px_at opaque3 2 1.
Proof.
  apply (X9_3d_effect_keeps_the_border opaque3 2 1); try reflexivity; vm_compute; lia.
Defined.

Lemma interior_bounds n i : interior n i = true -> (0 < i /\ i + 1 < n)%nat.
Proof.
  unfold interior. rewrite andb_true_iff, !Nat.ltb_lt. tauto.
Qed.

(** The effect inside the rim. *)
Lemma create_3d_effect_interior im x y :
  interior (height im) y && interior (width im) x = true ->
  exists out,
    create_3d_effect im = Ok out
    /\ px_at out x y
       = build (mode im)
           (fun c => effect_value (chan c (px_at im x y))
                       (chan c (px_at im (x - 1) (y + 1))) (ring_sum im c x y)).
Proof.
  intros Hi. pose proof Hi as Hi'. apply andb_true_iff in Hi'.
  destruct Hi' as [Hy Hx]. apply interior_bounds in Hx, Hy.
  eexists. split; [apply create_3d_effect_large; lia|].
  rewrite px_at_tabulate by lia. unfold filter3x3_pixel. rewrite Hi.
  unfold effect_value.
  destruct (mode im); cbn [build zip_pixel];
    rewrite !emboss_band, !edges_band;
    (rewrite !blend_interpolate_half
       by first [apply emboss_value_byte | apply edge_value_byte]);
    reflexivity.
Qed.

(** X10: inside the rim, band [c] of the effect is the rounded-down mean of
    the emboss response [clamp (128 + v - sw)], [sw] being the lower-left
    neighbour, and the edge response [clamp (8 * v - ring)], [ring] being
    the sum of the eight neighbours. *)
Theorem X10_3d_effect_interior_formula image x y c :
  interior (height image) y && interior (width image) x = true ->
  (c < bands (mode image))%nat ->
  exists out,
    create_3d_effect image = Ok out
    /\ chan c (px_at out x y)
       = (clamp255 (128 + chan c (px_at image x y) - chan c (px_at image (x - 1) (y + 1)))
          + clamp255 (8 * chan c (px_at image x y) - ring_sum image c x y)) / 2.
Proof.
  intros Hi Hc. destruct (create_3d_effect_interior image x y Hi) as [out [E P]].
  exists out. split; [exact E|]. rewrite P.
  destruct (mode image); destruct c as [|[|[|[|c]]]]; cbn in Hc |- *;
    try reflexivity; lia.
Qed.

Lemma X10_3d_effect_interior_formula_witness :
  exists out,
    create_3d_effect opaque3 = Ok out
    /\ chan 3 (px_at out 1 1)
       = (clamp255 (128 + chan 3 (px_at opaque3 1 1) - chan 3 (px_at opaque3 (1 - 1) (1 + 1)))
          + clamp255 (8 * chan 3 (px_at opaque3 1 1) - ring_sum opaque3 3 1 1)) / 2.
Proof.
  apply (X10_3d_effect_interior_formula opaque3 1 1 3); try reflexivity; vm_compute; lia.
Defined.

(** X11: where a pixel inside the rim has the same value as its eight
    neighbours, the effect puts 64 in every band, alpha included: flat
    regions turn into uniform, mostly transparent grey. *)
Theorem X11_3d_effect_flattens_uniform_regions image x y :
  interior (height image) y && interior (width image) x = true ->
  (forall i j, (i < 3)%nat -> (j < 3)%nat ->
               px_at image (x - 1 + i) (y - 1 + j) = px_at image x y) ->
  exists out,
    create_3d_effect image = Ok out
    /\ px_at out x y = build (mode image) (fun _ => 64).
Proof.
  intros Hi Hflat. destruct (create_3d_effect_interior image x y Hi) as [out [E P]].
  exists out. split; [exact E|]. rewrite P.
  apply andb_true_iff in Hi. destruct Hi as [Hy Hx].
  apply interior_bounds in Hx, Hy.
  assert (N : forall i j, (i < 3)%nat -> (j < 3)%nat -> forall x' y',
               x' = (x - 1 + i)%nat -> y' = (y - 1 + j)%nat ->
               px_at image x' y' = px_at image x y)
    by (intros i j Hi Hj x' y' -> ->; now apply Hflat).
  assert (F : forall c, effect_value (chan c (px_at image x y))
                          (chan c (px_at image (x - 1) (y + 1))) (ring_sum image c x y)
                        = 64).
  { intros c. unfold ring_sum.
    rewrite (N 0 2 ltac:(lia) ltac:(lia) (x - 1) (y + 1))%nat by lia.
    rewrite (N 0 0 ltac:(lia) ltac:(lia) (x - 1) (y - 1))%nat by lia.
    rewrite (N 1 0 ltac:(lia) ltac:(lia) x (y - 1))%nat by lia.
    rewrite (N 2 0 ltac:(lia) ltac:(lia) (x + 1) (y - 1))%nat by lia.
    rewrite (N 0 1 ltac:(lia) ltac:(lia) (x - 1) y)%nat by lia.
    rewrite (N 2 1 ltac:(lia) ltac:(lia) (x + 1) y)%nat by lia.
    rewrite (N 1 2 ltac:(lia) ltac:(lia) x (y + 1))%nat by lia.
    rewrite (N 2 2 ltac:(lia) ltac:(lia) (x + 1) (y + 1))%nat by lia.
    unfold effect_value, emboss_value, edge_value, clamp255.
    replace (128 + chan c (px_at image x y) - chan c (px_at image x y)) with 128 by lia.
    match goal with |- context [8 * ?v - ?s] => replace (8 * v - s) with 0 by lia end.
    reflexivity. }
  destruct (mode image); cbn [build]; now rewrite !F.
Qed.

Lemma X11_3d_effect_flattens_uniform_regions_witness :
  exists out,
    create_3d_effect opaque3 = Ok out
    /\ px_at out 1 1 = build (mode opaque3) (fun _ => 64).
Proof.
  apply (X11_3d_effect_flattens_uniform_regions opaque3 1 1); [reflexivity|].
  intros [|[|[|i]]] [|[|[|j]]] Hi Hj; try reflexivity; lia.
Defined.

Lemma effect_mean_byte v sw ring :
  byteb ((emboss_value v sw + edge_value v ring) / 2) = true.
Proof.
  apply byteb_spec. unfold emboss_value, edge_value, clamp255.
  Z.div_mod_to_equations. lia.
Qed.

(** X12: [create_3d_effect] keeps a well-formed image well formed, in the
    same mode. *)
Theorem X12_3d_effect_keeps_well_formed image :
  wfb image = true ->
  exists out, create_3d_effect image = Ok out /\ wfb out = true /\ mode out = mode image.
Proof.
  intros Hwf.
  destruct (Nat.lt_ge_cases (width image) 3) as [Hw|Hw];
    [|destruct (Nat.lt_ge_cases (height image) 3) as [Hh|Hh]].
  - exists image. split; [apply create_3d_effect_small; auto|]. now split.
  - exists image. split; [apply create_3d_effect_small; auto|]. now split.
  - eexists. split; [now apply create_3d_effect_large|]. split; [|reflexivity].
    unfold width, height in *. destruct (size image) as [w h] eqn:Es.
    cbn [fst snd] in *. apply wfb_tabulate. intros x y Hx Hy.
    unfold filter3x3_pixel, width, height. rewrite Es. cbn [fst snd].
    destruct (interior h y && interior w x).
    + destruct (mode image); cbn [build zip_pixel pixel_okb];
        rewrite !emboss_band, !edges_band;
        (rewrite !blend_interpolate_half
           by first [apply emboss_value_byte | apply edge_value_byte]);
        rewrite !effect_mean_byte; reflexivity.
    + rewrite (zip_half_same (mode image)); apply wfb_px_at; try exact Hwf;
        unfold width, height; rewrite Es; assumption.
Qed.

Lemma X12_3d_effect_keeps_well_formed_witness :
  exists out, create_3d_effect opaque3 = Ok out /\ wfb out = true /\ mode out = mode opaque3.
Proof. apply (X12_3d_effect_keeps_well_formed opaque3). reflexivity. Defined.

(** ** The pipeline, continued *)

Lemma remove_white_background_twice image :
  remove_white_background (remove_white_background image)
  = remove_white_background image.
Proof.
  rewrite (remove_white_background_pixelwise (remove_white_background image)).
  rewrite (remove_white_background_pixelwise image).
  cbn [size data]. f_equal.
  rewrite map_map2. apply map_ext. intros row. apply map_ext. intros p.
  now rewrite rgba_of_pixel_of_rgba, BackgroundKeyer_pixel_idem by lia.
Qed.

Lemma enhance_pixel_zero : enhance_pixel RGBA (PRGBA 0 0 0 0) = PRGBA 0 0 0 0.
Proof. reflexivity. Qed.

(** X16: a pixel keyed out by [remove_white_background] is still
    [(0, 0, 0, 0)] after [enhance_colors]: the enhancement never brings a
    removed background back. *)
Theorem X16_keyed_pixels_stay_transparent_after_enhance image x y :
  px_at (remove_white_background image) x y = PRGBA 0 0 0 0 ->
  exists enhanced,
    enhance_colors (remove_white_background image) = Ok enhanced
    /\ px_at enhanced x y = PRGBA 0 0 0 0.
Proof.
  intros Hk. eexists. split; [apply enhance_colors_pixelwise|].
  rewrite remove_white_background_pixelwise in Hk |- *. cbn [mode size data].
  rewrite (px_at_map_zero RGBA RGBA _ (size image) (enhance_pixel RGBA))
    by exact enhance_pixel_zero.
  now rewrite Hk.
Qed.

Lemma X16_keyed_pixels_stay_transparent_after_enhance_witness :
  exists enhanced,
    enhance_colors (remove_white_background glass2) = Ok enhanced
    /\ px_at enhanced 1 0 = PRGBA 0 0 0 0.
Proof.
  apply (X16_keyed_pixels_stay_transparent_after_enhance glass2 1 0). reflexivity.
Defined.

Section PipelineMore.

Context {F : FloatFilters}.

Lemma mode_create_depth_map image : mode (create_depth_map image) = L.
Proof.
  unfold create_depth_map, filter_GaussianBlur, grayscale.
  destruct (Qeq_bool 5 0); cbn [mode]; apply mode_convert.
Qed.

(** X13: the pipeline returns a keyed RGBA image, a single-band depth map
    and an RGBA effect image, all three of the size of the input. *)
Theorem X13_pipeline_output_modes_and_sizes image :
  exists cleaned depth final_3d,
    full_2d_to_3d_pipeline image = Ok (cleaned, depth, final_3d)
    /\ mode cleaned = RGBA /\ mode depth = L /\ mode final_3d = RGBA
    /\ size cleaned = size image /\ size depth = size image
    /\ size final_3d = size image.
Proof.
  unfold full_2d_to_3d_pipeline.
  rewrite enhance_colors_eq. cbn [bind].
  rewrite create_3d_effect_eq. cbn [bind mode size].
  eexists. eexists. eexists. split; [reflexivity|].
  rewrite mode_create_depth_map, size_create_depth_map. cbn [mode size].
  rewrite remove_white_background_pixelwise. cbn [mode size]. repeat split.
Qed.

(** X14: running the pipeline on its own [cleaned] output gives the same
    triple again. *)
Theorem X14_pipeline_on_cleaned_output image :
  full_2d_to_3d_pipeline (remove_white_background image)
  = full_2d_to_3d_pipeline image.
Proof.
  unfold full_2d_to_3d_pipeline. now rewrite remove_white_background_twice.
Qed.

Lemma luma_through_RGB p : convert_pixel L (convert_pixel RGB p) = convert_pixel L p.
Proof. destruct p; cbn [convert_pixel]; try reflexivity; now rewrite luma_grey. Qed.

(** X15: the depth map does not look at alpha: an RGBA image and the same
    image with its alpha band dropped have the same depth map, so
    transparent pixels weigh in with their colour bands. *)
Theorem X15_depth_map_ignores_alpha image :
  mode image = RGBA ->
  create_depth_map image = create_depth_map (convert image RGB).
Proof.
  intros Hm. unfold create_depth_map. f_equal.
  unfold grayscale, convert. rewrite Hm. cbn [Mode_eqb mode size data].
  f_equal. rewrite map_map2. apply map_ext. intros row. apply map_ext. intros p.
  symmetry. apply luma_through_RGB.
Qed.

End PipelineMore.

Lemma X15_depth_map_ignores_alpha_witness :
  @create_depth_map plain_filters glass2
  = @create_depth_map plain_filters (convert glass2 RGB).
Proof. apply (@X15_depth_map_ignores_alpha plain_filters glass2). reflexivity. Defined.

(** ** The slider, continued *)

Section SliderMore.

Context {F : FloatFilters}.

(** X17: the comparison returns an image exactly when [after_img] can be
    resized, the slider stands at the full width of [before_img] and the
    box to crop is within the decompression bomb limit.  Otherwise it
    raises, in this order: the [ValueError] of [Image.resize] when
    [before_img] has an empty side and [after_img] another size; the
    [ValueError] of [Image.crop] for a negative position; the
    [DecompressionBombError] of [Image.crop] for a box of more than
    178956970 pixels; and at every other position the [ValueError] of
    [Image.paste], whose mask has the size of the image while the cropped
    [after_img] has the width of the slider position. *)
Theorem X17_slider_returns_only_at_full_width before after slider_position :
  let resizable :=
    size_eqb (size after) (size before)
    || negb (Nat.ltb (width before) 1 || Nat.ltb (height before) 1) in
  let box := Z.max 1 slider_position * Z.max 1 (Z.of_nat (height before)) in
  match create_before_after_comparison before after slider_position with
  | Ok _ =>
      resizable = true /\ slider_position = Z.of_nat (width before)
      /\ box <= 178956970
  | Raise e =>
      if negb resizable then e = ValueError "height and width must be > 0"
      else if slider_position <? 0
           then e = ValueError "Coordinate 'right' is less than 'left'"
      else if 178956970 <? box then exc_type e = "DecompressionBombError"%string
      else e = ValueError "images do not match"
           /\ slider_position <> Z.of_nat (width before)
  end.
Proof.
  intros resizable box.
  destruct (resize after (size before)) as [R|e] eqn:Hr.
  - assert (Hres : resizable = true).
    { unfold resizable, resize, width, height in *.
      destruct (size_eqb (size after) (size before)); [reflexivity|].
      destruct (Nat.ltb (fst (size before)) 1 || Nat.ltb (snd (size before)) 1);
        [discriminate Hr|reflexivity]. }
    rewrite Hres. cbn [negb].
    destruct (Z.ltb_spec slider_position 0) as [Hneg|Hpos].
    { now rewrite (slider_negative _ _ _ R Hr Hneg). }
    destruct (Z.ltb_spec 178956970 box) as [Hbig|Hsmall].
    { destruct (slider_bomb _ _ _ R Hr Hpos Hbig) as [msg ->]. reflexivity. }
    destruct (Z.eq_dec slider_position (Z.of_nat (width before))) as [E|Hne].
    + unfold box in *. rewrite E in *.
      rewrite (slider_full _ _ R Hr Hsmall). repeat split. exact Hsmall.
    + rewrite (slider_mismatch _ _ _ R Hr Hpos Hsmall);
        [split; [reflexivity|exact Hne]|].
      intros E. apply Hne. rewrite <- E. now rewrite Z2Nat.id.
  - rewrite (slider_resize_raises _ _ _ _ Hr).
    unfold resizable, resize, width, height in *.
    destruct (size_eqb (size after) (size before)); [discriminate Hr|].
    destruct (Nat.ltb (fst (size before)) 1 || Nat.ltb (snd (size before)) 1);
      [|discriminate Hr].
    cbn [orb negb]. now injection Hr as <-.
Qed.

(** At the full width the result is the resized [after_img] as RGB. *)
Lemma slider_full_wf before after R :
  wfb before = true -> resize after (size before) = Ok R -> wfb R = true ->
  Z.max 1 (Z.of_nat (width before)) * Z.max 1 (Z.of_nat (height before)) <= 178956970 ->
  create_before_after_comparison before after (Z.of_nat (width before))
  = Ok (convert R RGB).
Proof.
  intros Hb Hr Ha Hsmall. destruct (resize_Ok _ _ _ Hr) as [Hs _].
  rewrite (slider_full _ _ R Hr Hsmall). f_equal.
  rewrite (tabulate_ext _ _ _ (fun x y => convert_pixel RGB (px_at R x y)))
    by (intros x y Hx Hy; now apply slider_pixels).
  pose proof (wfb_data_tabulate R Ha) as Hd.
  unfold width, height in Hd |- *. rewrite Hs in Hd.
  unfold convert. destruct (Mode_eqb RGB (mode R)) eqn:Em.
  - apply Mode_eqb_eq in Em.
    rewrite (tabulate_ext _ _ _ (px_at R)).
    + rewrite <- Hd, <- Hs, Em. now destruct R.
    + intros x y Hx Hy.
      assert (P : pixel_okb (mode R) (px_at R x y) = true)
        by (apply wfb_px_at; [exact Ha| |]; unfold width, height; rewrite Hs; assumption).
      destruct (pixel_ok_as_RGB _ _ P) as [E _]. rewrite <- Em in E.
      rewrite Mode_eqb_refl in E. now symmetry.
  - rewrite Hs. f_equal. rewrite Hd at 1. now rewrite map_tabulate.
Qed.

(** X18: at the full width, when [Image.resize] returns the well-formed
    image [resized] and [before_img] is well formed with at most
    178956970 pixels, the result is [resized] converted to RGB, whatever
    [before_img] shows: of [before_img] only the size matters. *)
Theorem X18_slider_full_width_shows_only_after before after resized :
  wfb before = true -> resize after (size before) = Ok resized ->
  wfb resized = true ->
  Z.max 1 (Z.of_nat (width before)) * Z.max 1 (Z.of_nat (height before)) <= 178956970 ->
  create_before_after_comparison before after (Z.of_nat (width before))
  = Ok (convert resized RGB).
Proof. exact (slider_full_wf before after resized). Qed.

(** X19: when [after_img] is an RGB image of the size of [before_img],
    with at most 178956970 pixels, the comparison at the full width is
    [after_img] itself. *)
Theorem X19_slider_full_width_returns_same_size_RGB_after before after :
  wfb before = true -> wfb after = true ->
  size after = size before -> mode after = RGB ->
  Z.max 1 (Z.of_nat (width before)) * Z.max 1 (Z.of_nat (height before)) <= 178956970 ->
  create_before_after_comparison before after (Z.of_nat (width before)) = Ok after.
Proof.
  intros Hb Ha Hs Hm Hsmall.
  assert (R : resize after (size before) = Ok after)
    by (unfold resize; now rewrite Hs, size_eqb_refl).
  rewrite (slider_full_wf _ _ after Hb R Ha Hsmall).
  unfold convert. now rewrite Hm.
Qed.

End SliderMore.

Lemma X18_slider_full_width_shows_only_after_witness :
  @create_before_after_comparison plain_filters opaque3 glass2 (Z.of_nat (width opaque3))
  = Ok (convert (mkImage RGBA (3, 3)%nat (nearest glass2 (3, 3)%nat)) RGB).
Proof.
  apply (@X18_slider_full_width_shows_only_after plain_filters opaque3 glass2);
    try reflexivity.
  vm_compute. discriminate.
Defined.

Lemma X19_slider_full_width_returns_same_size_RGB_after_witness :
  @create_before_after_comparison plain_filters red10 blue10 (Z.of_nat (width red10))
  = Ok blue10.
Proof.
  apply (@X19_slider_full_width_returns_same_size_RGB_after plain_filters red10 blue10);
    try reflexivity.
  vm_compute. discriminate.
Defined.

(** * The NFT registry *)

Module nft_facts.

Import nft_mining.

Lemma token_id_set_owner nft o : token_id (set_owner nft o) = token_id nft.
Proof. reflexivity. Qed.

Lemma transfer_keeps_tokens l t f o :
  map token_id (snd (transfer_nft l t f o)) = map token_id l.
Proof.
  induction l as [|nft rest IH]; [reflexivity|]. cbn [transfer_nft].
  destruct (String.eqb (token_id nft) t && String.eqb (owner nft) f); [reflexivity|].
  destruct (transfer_nft rest t f o) as [done rest']. cbn [snd map] in *.
  now rewrite IH.
Qed.

Lemma transfer_true_iff l t f o :
  fst (transfer_nft l t f o) = true
  <-> exists nft, In nft l /\ token_id nft = t /\ owner nft = f.
Proof.
  induction l as [|nft rest IH]; cbn [transfer_nft].
  - split; [discriminate|]. now intros [nft [[] _]].
  - destruct (String.eqb (token_id nft) t && String.eqb (owner nft) f) eqn:E.
    + split; [|reflexivity]. intros _. apply andb_true_iff in E.
      destruct E as [Et Eo]. apply String.eqb_eq in Et, Eo.
      exists nft. split; [now left|now split].
    + destruct (transfer_nft rest t f o) as [done rest']. cbn [fst] in *.
      rewrite IH. split.
      * intros [n [Hin H]]. exists n. split; [now right|exact H].
      * intros [n [[->|Hin] [Ht Ho]]].
        -- rewrite Ht, Ho, !String.eqb_refl in E. discriminate E.
        -- exists n. now split.
Qed.

Lemma transfer_false_unchanged l t f o :
  fst (transfer_nft l t f o) = false -> snd (transfer_nft l t f o) = l.
Proof.
  induction l as [|nft rest IH]; [reflexivity|]. cbn [transfer_nft].
  destruct (String.eqb (token_id nft) t && String.eqb (owner nft) f); [discriminate|].
  destruct (transfer_nft rest t f o) as [done rest']. cbn [fst snd] in *.
  intros Hd. now rewrite IH.
Qed.

Lemma get_other_token_unchanged l t f o t' :
  t' <> t ->
  get_nft_by_token_id (snd (transfer_nft l t f o)) t' = get_nft_by_token_id l t'.
Proof.
  intros Hne. induction l as [|nft rest IH]; [reflexivity|]. cbn [transfer_nft].
  destruct (String.eqb (token_id nft) t && String.eqb (owner nft) f) eqn:E.
  - cbn [snd get_nft_by_token_id]. rewrite token_id_set_owner.
    apply andb_true_iff in E. destruct E as [Et _]. apply String.eqb_eq in Et.
    rewrite Et. apply String.eqb_neq in Hne. rewrite String.eqb_sym in Hne.
    now rewrite Hne.
  - destruct (transfer_nft rest t f o) as [done rest']. cbn [snd] in *.
    cbn [get_nft_by_token_id]. now rewrite IH.
Qed.

Lemma get_unique l nft :
  NoDup (map token_id l) -> In nft l ->
  get_nft_by_token_id l (token_id nft) = Some nft.
Proof.
  induction l as [|n rest IH]; intros Hnd Hin; [contradiction|].
  cbn [map] in Hnd. inversion Hnd as [|? ? Hnotin Hnd']; subst.
  cbn [get_nft_by_token_id]. destruct Hin as [->|Hin].
  - now rewrite String.eqb_refl.
  - destruct (String.eqb_spec (token_id n) (token_id nft)) as [E|E].
    + exfalso. apply Hnotin. rewrite E. now apply in_map.
    + now apply IH.
Qed.

Lemma get_in l t nft :
  get_nft_by_token_id l t = Some nft -> In nft l /\ token_id nft = t.
Proof.
  induction l as [|n rest IH]; cbn [get_nft_by_token_id]; [discriminate|].
  destruct (String.eqb_spec (token_id n) t) as [E|E].
  - intros [= <-]. split; [now left|exact E].
  - intros H. destruct (IH H) as [Hin Ht]. split; [now right|exact Ht].
Qed.

Lemma transfer_new_owner_in l t f o :
  fst (transfer_nft l t f o) = true ->
  exists nft, In nft (snd (transfer_nft l t f o)) /\ token_id nft = t /\ owner nft = o.
Proof.
  induction l as [|nft rest IH]; cbn [transfer_nft]; [discriminate|].
  destruct (String.eqb (token_id nft) t && String.eqb (owner nft) f) eqn:E.
  - intros _. apply andb_true_iff in E. destruct E as [Et _].
    apply String.eqb_eq in Et. exists (set_owner nft o).
    split; [now left|]. now split.
  - destruct (transfer_nft rest t f o) as [done rest']. cbn [fst snd] in *.
    intros Hd. destruct (IH Hd) as [n [Hin H]]. exists n. split; [now right|exact H].
Qed.

(** With distinct token ids, a transfer that succeeded shows in
    [verify_ownership]. *)
Lemma transfer_then_verify l t f o :
  NoDup (map token_id l) -> fst (transfer_nft l t f o) = true ->
  verify_ownership (snd (transfer_nft l t f o)) t o = true.
Proof.
  intros Hnd Hd. destruct (transfer_new_owner_in l t f o Hd) as [nft [Hin [Ht Ho]]].
  rewrite <- (transfer_keeps_tokens l t f o) in Hnd. subst t.
  unfold verify_ownership. rewrite (get_unique _ nft Hnd Hin), Ho.
  apply String.eqb_refl.
Qed.

(** X20: [_calculate_rarity] answers "Legendary" exactly for an
    AI-generated product that saves more than 5000 l of water and more than
    20 kg of CO2; a product that is not AI-generated is never "Epic" or
    "Legendary"; a product dict without the three keys is "Common". *)
Theorem X20_rarity_levels product_data :
  (_calculate_rarity product_data = "Legendary"%string
   <-> get (pd_ai_generated product_data) false = true
       /\ 5000 < get (pd_water_saved product_data) 0
       /\ 20 < get (pd_co2_saved product_data) 0)
  /\ (get (pd_ai_generated product_data) false = false ->
      _calculate_rarity product_data = "Rare"%string
      \/ _calculate_rarity product_data = "Common"%string)
  /\ (pd_ai_generated product_data = None -> pd_water_saved product_data = None ->
      pd_co2_saved product_data = None ->
      _calculate_rarity product_data = "Common"%string).
Proof.
  unfold _calculate_rarity. split; [|split].
  - destruct (get (pd_ai_generated product_data) false);
      destruct (Z.ltb_spec 5000 (get (pd_water_saved product_data) 0)) as [Hw|Hw];
      destruct (Z.ltb_spec 20 (get (pd_co2_saved product_data) 0)) as [Hc|Hc]; cbn;
      (split;
       [ intros G; try discriminate G; repeat split; first [reflexivity | lia]
       | intros [G1 [G2 G3]]; first [reflexivity | discriminate G1 | lia] ]).
  - intros ->.
    destruct (5000 <? get (pd_water_saved product_data) 0);
      destruct (20 <? get (pd_co2_saved product_data) 0); cbn; auto.
  - intros -> -> ->. reflexivity.
Qed.

Lemma X20_rarity_levels_witness :
  _calculate_rarity (mkProduct None None None None (Some false) (Some 9000) (Some 50))
  = "Rare"%string
  \/ _calculate_rarity (mkProduct None None None None (Some false) (Some 9000) (Some 50))
     = "Common"%string.
Proof.
  apply (proj1 (proj2 (X20_rarity_levels
                         (mkProduct None None None None (Some false) (Some 9000) (Some 50))))).
  reflexivity.
Defined.

(** X21: [transfer_nft] answers [True] exactly when some minted NFT has
    the token id and belongs to [from_address]; when it answers [False]
    the registry is as before; in either case no NFT is added or removed
    and no token id changes. *)
Theorem X21_transfer_succeeds_iff_owned minted_nfts token from_address to_address :
  (fst (transfer_nft minted_nfts token from_address to_address) = true
   <-> exists nft, In nft minted_nfts /\ token_id nft = token /\ owner nft = from_address)
  /\ (fst (transfer_nft minted_nfts token from_address to_address) = false ->
      snd (transfer_nft minted_nfts token from_address to_address) = minted_nfts)
  /\ map token_id (snd (transfer_nft minted_nfts token from_address to_address))
     = map token_id minted_nfts.
Proof.
  split; [apply transfer_true_iff|].
  split; [apply transfer_false_unchanged|apply transfer_keeps_tokens].
Qed.

(** X22: when token ids are distinct, after a transfer that succeeded
    [verify_ownership] confirms the new owner and no longer the old one,
    and answers as before for every other token. *)
Theorem X22_transfer_moves_ownership minted_nfts token from_address to_address :
  NoDup (map token_id minted_nfts) ->
  fst (transfer_nft minted_nfts token from_address to_address) = true ->
  let after := snd (transfer_nft minted_nfts token from_address to_address) in
  verify_ownership after token to_address = true
  /\ (from_address <> to_address -> verify_ownership after token from_address = false)
  /\ (forall token' owner_address, token' <> token ->
        verify_ownership after token' owner_address
        = verify_ownership minted_nfts token' owner_address).
Proof.
  intros Hnd Hd after.
  pose proof (transfer_then_verify _ _ _ _ Hnd Hd) as Hv. fold after in Hv.
  split; [exact Hv|]. split.
  - intros Hne. unfold verify_ownership in *.
    destruct (get_nft_by_token_id after token) as [nft|]; [|reflexivity].
    apply String.eqb_eq in Hv. rewrite Hv. apply String.eqb_neq. congruence.
  - intros token' owner_address Hne. unfold verify_ownership, after.
    now rewrite get_other_token_unchanged.
Qed.

(** X23: when token ids are distinct, [verify_ownership] says yes exactly
    for the tokens [get_nfts_by_owner] lists for that owner. *)
Theorem X23_verify_agrees_with_owner_listing minted_nfts token owner_address :
  NoDup (map token_id minted_nfts) ->
  verify_ownership minted_nfts token owner_address = true
  <-> exists nft, In nft (get_nfts_by_owner minted_nfts owner_address)
                  /\ token_id nft = token.
Proof.
  intros Hnd. unfold verify_ownership, get_nfts_by_owner. split.
  - destruct (get_nft_by_token_id minted_nfts token) as [nft|] eqn:E; [|discriminate].
    intros Ho. apply get_in in E. destruct E as [Hin Ht].
    exists nft. split; [|exact Ht]. apply filter_In. now split.
  - intros [nft [Hin Ht]]. apply filter_In in Hin. destruct Hin as [Hin Ho].
    subst token. now rewrite (get_unique _ nft Hnd Hin).
Qed.

(** X24: when token ids are distinct, a transfer to another address
    cannot be repeated: the second attempt answers [False]. *)
Theorem X24_transfer_cannot_be_repeated minted_nfts token from_address to_address :
  NoDup (map token_id minted_nfts) -> from_address <> to_address ->
  fst (transfer_nft minted_nfts token from_address to_address) = true ->
  fst (transfer_nft (snd (transfer_nft minted_nfts token from_address to_address))
         token from_address to_address) = false.
Proof.
  intros Hnd Hne Hd.
  pose proof (transfer_then_verify _ _ _ _ Hnd Hd) as Hv.
  rewrite <- (transfer_keeps_tokens minted_nfts token from_address to_address) in Hnd.
  set (after := snd (transfer_nft minted_nfts token from_address to_address)) in *.
  destruct (fst (transfer_nft after token from_address to_address)) eqn:E;
    [|reflexivity].
  exfalso. apply transfer_true_iff in E. destruct E as [nft [Hin [Ht Ho]]].
  unfold verify_ownership in Hv. subst token.
  rewrite (get_unique _ nft Hnd Hin) in Hv. apply String.eqb_eq in Hv. congruence.
Qed.

End nft_facts.

Lemma X22_transfer_moves_ownership_witness :
  let after := snd (nft_mining.transfer_nft sample_nfts "0x1a2b3c4d5e6f7890"
                      "0xSIH2024User1" "0xNewOwner") in
  nft_mining.verify_ownership after "0x1a2b3c4d5e6f7890" "0xNewOwner" = true
  /\ ("0xSIH2024User1"%string <> "0xNewOwner"%string ->
      nft_mining.verify_ownership after "0x1a2b3c4d5e6f7890" "0xSIH2024User1" = false)
  /\ (forall token' owner_address, token' <> "0x1a2b3c4d5e6f7890"%string ->
        nft_mining.verify_ownership after token' owner_address
        = nft_mining.verify_ownership sample_nfts token' owner_address).
Proof.
  apply (nft_facts.X22_transfer_moves_ownership sample_nfts "0x1a2b3c4d5e6f7890"
           "0xSIH2024User1" "0xNewOwner"); [|reflexivity].
  vm_compute. repeat constructor; simpl; intuition discriminate.
Defined.

Lemma X23_verify_agrees_with_owner_listing_witness :
  nft_mining.verify_ownership sample_nfts "0x2b3c4d5e6f7890a1" "0xSIH2024User2" = true
  <-> exists nft, In nft (nft_mining.get_nfts_by_owner sample_nfts "0xSIH2024User2")
                  /\ nft_mining.token_id nft = "0x2b3c4d5e6f7890a1"%string.
Proof.
  apply (nft_facts.X23_verify_agrees_with_owner_listing sample_nfts
           "0x2b3c4d5e6f7890a1" "0xSIH2024User2").
  vm_compute. repeat constructor; simpl; intuition discriminate.
Defined.

Lemma X24_transfer_cannot_be_repeated_witness :
  fst (nft_mining.transfer_nft
         (snd (nft_mining.transfer_nft sample_nfts "0x1a2b3c4d5e6f7890"
                 "0xSIH2024User1" "0xNewOwner"))
         "0x1a2b3c4d5e6f7890" "0xSIH2024User1" "0xNewOwner") = false.
Proof.
  apply (nft_facts.X24_transfer_cannot_be_repeated sample_nfts "0x1a2b3c4d5e6f7890"
           "0xSIH2024User1" "0xNewOwner"); [|discriminate|reflexivity].
  vm_compute. repeat constructor; simpl; intuition discriminate.
Defined.
